(** * Door schedule extractor: a shallow embedding of [extract_json.py]

    The table-to-record pipeline of the extractor is embedded as executable
    functions over lists of characters.  Python strings are modelled as
    lists of [ascii] characters, read as code points.  The model covers
    ASCII text (code points below 128), where [\s] and
    [str.strip]/[str.split] agree on the same whitespace set and
    [str.upper] maps 'a'..'z' to 'A'..'Z', together with the three
    superscript digits of code points 178, 179 and 185: [str.isdigit]
    holds of them and the regular-expression class [\d] does not, and the
    code uses both classes side by side.  They are not whitespace, not
    letters, and [str.upper] leaves them as they are. *)

From Stdlib Require Import Ascii String List Bool Arith NArith Lia.
Import ListNotations.
Local Open Scope list_scope.
Local Open Scope bool_scope.

(** ** Python string primitives *)

Module PyStr.

Definition text := list ascii.

Definition txt (s : string) : text := list_ascii_of_string s.

Definition NL : text := ["010"%char].
Definition SP : text := [" "%char].

Definition code (c : ascii) : N := N_of_ascii c.

Definition in_range (lo hi : N) (c : ascii) : bool :=
  (N.leb lo (code c)) && (N.leb (code c) hi).

(** [str.isspace] on ASCII: TAB, LF, VT, FF, CR, FS, GS, RS, US, SPACE. *)
Definition is_space (c : ascii) : bool :=
  in_range 9 13 c || in_range 28 32 c.

(** The class [\d]: '0'..'9'. *)
Definition is_digit (c : ascii) : bool := in_range 48 57 c.

(** [c.isdigit()] for one character: '0'..'9' and the superscript digits
    two, three and one. *)
Definition is_str_digit (c : ascii) : bool :=
  is_digit c || N.eqb (code c) 178 || N.eqb (code c) 179
  || N.eqb (code c) 185.
Definition is_upper (c : ascii) : bool := in_range 65 90 c.
Definition is_lower (c : ascii) : bool := in_range 97 122 c.

Definition to_upper (c : ascii) : ascii :=
  if is_lower c then ascii_of_N (code c - 32) else c.

(** [s.upper()] *)
Definition upper (s : text) : text := map to_upper s.

Fixpoint text_eqb (a b : text) : bool :=
  match a, b with
  | [], [] => true
  | x :: a', y :: b' => Ascii.eqb x y && text_eqb a' b'
  | _, _ => false
  end.

(** Truthiness of a Python string: non-empty. *)
Definition truthy (s : text) : bool :=
  match s with [] => false | _ :: _ => true end.

Fixpoint drop_while (p : ascii -> bool) (s : text) : text :=
  match s with
  | [] => []
  | c :: s' => if p c then drop_while p s' else s
  end.

(** [span p s] splits off the longest prefix of [s] whose characters
    satisfy [p] (a greedy character-class repetition). *)
Fixpoint span (p : ascii -> bool) (s : text) : text * text :=
  match s with
  | [] => ([], [])
  | c :: s' =>
      if p c then let (a, b) := span p s' in (c :: a, b) else ([], s)
  end.

Definition lstrip (s : text) : text := drop_while is_space s.
Definition rstrip (s : text) : text := rev (drop_while is_space (rev s)).

(** [s.strip()] *)
Definition strip (s : text) : text := rstrip (lstrip s).

(** [s.split("\n")]: always at least one piece. *)
Fixpoint split_nl (s : text) : list text :=
  match s with
  | [] => [[]]
  | c :: s' =>
      if Ascii.eqb c "010"%char then [] :: split_nl s'
      else match split_nl s' with
           | l :: ls => (c :: l) :: ls
           | [] => [[c]]
           end
  end.

(** [s.split()]: maximal runs of non-whitespace characters. *)
Fixpoint split_ws (s : text) : list text :=
  match s with
  | [] => []
  | c :: s' =>
      if is_space c then split_ws s'
      else match s' with
           | [] => [[c]]
           | d :: _ =>
               if is_space d then [c] :: split_ws s'
               else match split_ws s' with
                    | t :: ts => (c :: t) :: ts
                    | [] => [[c]]
                    end
           end
  end.

(** [" ".join(parts)] *)
Fixpoint join_sp (parts : list text) : text :=
  match parts with
  | [] => []
  | [p] => p
  | p :: ps => p ++ SP ++ join_sp ps
  end.

(** [s.startswith(p)] *)
Fixpoint startswith (p s : text) : bool :=
  match p, s with
  | [], _ => true
  | x :: p', y :: s' => Ascii.eqb x y && startswith p' s'
  | _ :: _, [] => false
  end.

(** [p in s] on strings. *)
Fixpoint contains (p s : text) : bool :=
  startswith p s ||
  match s with
  | [] => false
  | _ :: s' => contains p s'
  end.

(** [s.count(p)] for a non-empty [p]: non-overlapping occurrences, left to
    right.  [skip] is the number of characters of the last occurrence that
    are still to be passed over. *)
Fixpoint count_from (skip : nat) (p s : text) : nat :=
  match s with
  | [] => 0
  | _ :: s' =>
      match skip with
      | S k => count_from k p s'
      | O => if startswith p s then S (count_from (length p - 1) p s')
             else count_from 0 p s'
      end
  end.

Definition count (p s : text) : nat := count_from 0 p s.

(** [s.isdigit()] *)
Definition isdigit (s : text) : bool := truthy s && forallb is_str_digit s.

(** [l.count(x)] on a list of strings. *)
Definition list_count (x : text) (l : list text) : nat :=
  length (filter (text_eqb x) l).

(** [x in l] on a list of strings. *)
Definition list_mem (x : text) (l : list text) : bool :=
  existsb (text_eqb x) l.

(** The list comprehension
    [[l.strip() for l in s.split("\n") if l.strip()]]. *)
Definition stripped_lines (s : text) : list text :=
  filter truthy (map strip (split_nl s)).

End PyStr.

Import PyStr.

(** ** The regular expressions of the extractor *)

Module Re.

(** Strip a literal prefix. *)
Fixpoint lit (p s : text) : option text :=
  match p, s with
  | [], _ => Some s
  | x :: p', y :: s' => if Ascii.eqb x y then lit p' s' else None
  | _ :: _, [] => None
  end.

(** [$]: the end of the string, or just before a final newline. *)
Definition at_end (s : text) : bool :=
  match s with
  | [] => true
  | [c] => Ascii.eqb c "010"%char
  | _ => false
  end.

(** A match of [\d+\(W\)x\d+\(H\)] anchored at the start of [s]: the
    matched text and the remainder.  Both digit runs are followed by a
    literal parenthesis, so the greedy run is the only candidate. *)
Definition match_dim (s : text) : option (text * text) :=
  let (w, r1) := span is_digit s in
  if truthy w then
    match lit (txt "(W)x") r1 with
    | Some r2 =>
        let (h, r3) := span is_digit r2 in
        if truthy h then
          match lit (txt "(H)") r3 with
          | Some r4 => Some (w ++ txt "(W)x" ++ h ++ txt "(H)", r4)
          | None => None
          end
        else None
    | None => None
    end
  else None.

(** [re.search(r"\d+\(W\)x\d+\(H\)", s)]: the leftmost match. *)
Fixpoint search_dim (s : text) : option text :=
  match match_dim s with
  | Some (m, _) => Some m
  | None =>
      match s with
      | [] => None
      | _ :: s' => search_dim s'
      end
  end.

Definition has_dim (s : text) : bool :=
  match search_dim s with Some _ => true | None => false end.

(** [re.findall(r"\d+\(W\)x\d+\(H\)", s)]: leftmost non-overlapping
    matches; [skip] counts the characters of the last match still to be
    passed over. *)
Fixpoint findall_dim_from (skip : nat) (s : text) : list text :=
  match s with
  | [] => []
  | _ :: s' =>
      match skip with
      | S k => findall_dim_from k s'
      | O =>
          match match_dim s with
          | Some (m, _) => m :: findall_dim_from (length m - 1) s'
          | None => findall_dim_from 0 s'
          end
      end
  end.

Definition findall_dim (s : text) : list text := findall_dim_from 0 s.

(** [re.match(r"^\d+\(W\)x\d+\(H\)$", s)] *)
Definition match_dim_line (s : text) : bool :=
  match match_dim s with
  | Some (_, r) => at_end r
  | None => false
  end.

(** The whole of [s] is one dimension token. *)
Definition fullmatch_dim (s : text) : bool :=
  match match_dim s with
  | Some (_, []) => true
  | _ => false
  end.

(** [re.match(r"^\d+[A-Z]+$", s)] *)
Definition match_digits_letters (s : text) : bool :=
  let (d, r1) := span is_digit s in
  let (u, r2) := span is_upper r1 in
  truthy d && truthy u && at_end r2.

(** The variant pattern of the splitter, matched at the start of [s]: one
    or more digits and any number of uppercase letters (group 1, which is
    returned), followed by a whitespace character, an opening parenthesis
    or the end of the string. *)
Definition match_variant (s : text) : option text :=
  let (d, r1) := span is_digit s in
  let (u, r2) := span is_upper r1 in
  if truthy d then
    match r2 with
    | [] => Some (d ++ u)
    | c :: _ =>
        if is_space c || Ascii.eqb c "("%char then Some (d ++ u) else None
    end
  else None.

(** [re.match(r"^\d+[A-Z]\s+\d+[A-Z]$", s)] *)
Definition match_two_variants (s : text) : bool :=
  let (d1, r1) := span is_digit s in
  match r1 with
  | u1 :: r2 =>
      let (w, r3) := span is_space r2 in
      let (d2, r4) := span is_digit r3 in
      match r4 with
      | u2 :: r5 =>
          truthy d1 && is_upper u1 && truthy w && truthy d2 &&
          is_upper u2 && at_end r5
      | [] => false
      end
  | [] => false
  end.

(** [re.search(r"[A-Z]", s)] *)
Definition has_upper (s : text) : bool := existsb is_upper s.

(** [re.sub(r"\s+", " ", s)]; [in_run] tells whether the previous
    character already belonged to the whitespace run being replaced. *)
Fixpoint sub_ws (in_run : bool) (s : text) : text :=
  match s with
  | [] => []
  | c :: s' =>
      if is_space c then
        if in_run then sub_ws true s' else " "%char :: sub_ws true s'
      else c :: sub_ws false s'
  end.

End Re.

Import Re.

(** ** [clean_text] and [parse_door_type] *)

(** A table cell: [None] or a string. *)
Definition Cell := option text.

(** [clean_text(text)] *)
Definition clean_text (c : Cell) : text :=
  match c with
  | None => []
  | Some s => if truthy s then strip (sub_ws false s) else []
  end.

(** [first_part.isdigit() or re.match(r"^\d+[A-Z]+$", first_part)] *)
Definition is_variant_token (t : text) : bool :=
  isdigit t || match_digits_letters t.

(** The first element of [code_parts] in which the dimension pattern is
    found, or the empty string. *)
Fixpoint embedded_dimension (code_parts : list text) : text :=
  match code_parts with
  | [] => []
  | part :: rest =>
      if has_dim part then part else embedded_dimension rest
  end.

(** One iteration of the loop over [lines[1:]]; the state is the pair
    [(dimensions, variant)]. *)
Definition parse_line (st : text * text) (line : text) : text * text :=
  let (dimensions, variant) := st in
  if has_dim line then
    let parts := split_ws line in
    if 2 <=? length parts then
      let first_part := hd [] parts in
      if is_variant_token first_part then
        let joined := join_sp (tl parts) in
        match search_dim joined with
        | Some m => (m, first_part)
        | None => (joined, first_part)
        end
      else
        if truthy dimensions then st else (line, variant)
    else
      if truthy dimensions then st else (line, variant)
  else
    match split_ws line with
    | p0 :: _ =>
        if is_variant_token p0 then
          if truthy variant then st else (dimensions, p0)
        else st
    | [] => st
    end.

(** [parse_door_type(door_type_text)].  The Python result [(None, None)]
    is [None]; a result [(final_code, dimensions)] is [Some]. *)
Definition parse_door_type (door_type_text : Cell) : option (text * text) :=
  match door_type_text with
  | None => None
  | Some s =>
      if negb (truthy s) then None else
      match stripped_lines (strip s) with
      | [] => None
      | code :: rest =>
          if negb (has_upper code) then None
          else if startswith (txt "000(W)") code then None
          else if contains (txt "PRECINCT") code
                  || contains (txt "DRAWING") code
                  || contains (txt "PROJECT") code then None
          else
            match split_ws code with
            | [] => None
            | clean_code :: _ =>
                let code_parts := split_ws code in
                let '(dimensions, variant) :=
                  fold_left parse_line rest
                            (embedded_dimension code_parts, []) in
                if truthy variant
                then Some (clean_code ++ txt "/" ++ variant, dimensions)
                else Some (clean_code, dimensions)
            end
      end
  end.

(** ** Door records *)

Record DoorRecord := mkDoor {
  door_type : text;
  dimensions : text;
  fire_rating : text;
  description : text;
  location : text;
  remarks : text
}.

(** ** [split_multi_door_column] *)

(** [part[0].isdigit()] for a token of [line.split()]. *)
Definition first_is_digit (part : text) : bool :=
  match part with
  | c :: _ => is_str_digit c
  | [] => false
  end.

(** The inner search of the repair loop: the first index [j > 0] whose
    token equals [dim] and whose predecessor is a single digit.  [prev] is
    [all_tokens[j - 1]]. *)
Fixpoint repair_scan (dim prev : text) (toks : list text) : option text :=
  match toks with
  | [] => None
  | tok :: rest =>
      if text_eqb tok dim && isdigit prev && (length prev =? 1)
      then Some (prev ++ dim)
      else repair_scan dim tok rest
  end.

Definition repair_dim (all_tokens : list text) (dim : text) : text :=
  if startswith (txt "000(W)x") dim then
    match all_tokens with
    | [] => dim
    | t0 :: rest =>
        match repair_scan dim t0 rest with
        | Some d => d
        | None => dim
        end
    end
  else dim.

(** [len(variant) <= 2 or not variant.isdigit()] *)
Definition variant_shape_ok (variant : text) : bool :=
  (length variant <=? 2) || negb (isdigit variant).

(** Step 2, inner loop over the parts of a candidate variant line. *)
Fixpoint collect_variants (num_doors : nat) (parts all_variants : list text)
  : list text :=
  match parts with
  | [] => all_variants
  | part :: rest =>
      if first_is_digit part then
        match match_variant (part ++ SP) with
        | Some variant =>
            if variant_shape_ok variant then
              let all_variants' := all_variants ++ [variant] in
              if num_doors <=? length all_variants' then all_variants'
              else collect_variants num_doors rest all_variants'
            else collect_variants num_doors rest all_variants
        | None => collect_variants num_doors rest all_variants
        end
      else collect_variants num_doors rest all_variants
  end.

(** Step 2, outer loop over [lines[1:]]. *)
Fixpoint dedicated_variants (num_doors : nat) (lines all_variants : list text)
  : list text :=
  match lines with
  | [] => all_variants
  | line :: rest =>
      let parts := split_ws line in
      if negb (existsb has_dim parts) && (num_doors <=? length parts) then
        let all_variants' := collect_variants num_doors parts all_variants in
        if num_doors <=? length all_variants' then all_variants'
        else dedicated_variants num_doors rest all_variants'
      else dedicated_variants num_doors rest all_variants
  end.

(** Step 3, inner loop; its [break] leaves this loop only. *)
Fixpoint mixed_variants_line (num_doors : nat) (parts all_variants : list text)
  : list text :=
  match parts with
  | [] => all_variants
  | part :: rest =>
      if negb (contains (txt "(W)x(H)") part) && first_is_digit part then
        match match_variant (part ++ SP) with
        | Some variant =>
            if variant_shape_ok variant && negb (list_mem variant all_variants)
            then
              let all_variants' := all_variants ++ [variant] in
              if num_doors <=? length all_variants' then all_variants'
              else mixed_variants_line num_doors rest all_variants'
            else mixed_variants_line num_doors rest all_variants
        | None => mixed_variants_line num_doors rest all_variants
        end
      else mixed_variants_line num_doors rest all_variants
  end.

Definition mixed_variants (num_doors : nat) (lines all_variants : list text)
  : list text :=
  fold_left
    (fun av line => mixed_variants_line num_doors (split_ws line) av)
    lines all_variants.

(** Steps 2 and 3 together. *)
Definition variants_of (num_doors : nat) (lines : list text) : list text :=
  let all_variants := dedicated_variants num_doors (tl lines) [] in
  if length all_variants <? num_doors
  then mixed_variants num_doors (tl lines) all_variants
  else all_variants.

(** The dimensions after the repair loop. *)
Definition dimensions_of (door_type_text : text) (lines : list text)
  : list text :=
  let all_tokens := flat_map split_ws (tl lines) in
  map (repair_dim all_tokens) (findall_dim door_type_text).

Definition make_door (prefix : text) (variants dims : list text)
    (fr d l r : text) (i : nat) : DoorRecord :=
  let variant := nth i variants [] in
  mkDoor (if truthy variant then prefix ++ txt "/" ++ variant else prefix)
         (nth i dims []) fr d l r.

(** The legacy [FD1 FD1] rule: the loop over the lines, with state
    [(dimensions_list, variants_list)]. *)
Definition legacy_line (st : list text * list text) (line : text)
  : list text * list text :=
  let (dimensions_list, variants_list) := st in
  if contains (txt "(W)x") line
  then (dimensions_list ++ findall_dim line, variants_list)
  else if match_two_variants line then (dimensions_list, split_ws line)
  else st.

Definition legacy_fd1 (door_type_text fr d l r : text) : list DoorRecord :=
  let lines := stripped_lines door_type_text in
  let '(dimensions_list, variants_list) :=
    fold_left legacy_line lines ([], []) in
  let num_doors :=
    Nat.max (Nat.max (length dimensions_list) (length variants_list)) 2 in
  map (make_door (txt "FD1") variants_list dimensions_list fr d l r)
      (seq 0 num_doors).

(** The main algorithm once [base_code] and [num_doors] are known. *)
Definition split_main (door_type_text : text) (lines : list text)
    (base_code : text) (num_doors : nat) (fr d l r : text)
  : list DoorRecord :=
  map (make_door base_code (variants_of num_doors lines)
                 (dimensions_of door_type_text lines) fr d l r)
      (seq 0 num_doors).

Definition split_multi_door_column
    (door_type_text fire_rating description location remarks : text)
  : list DoorRecord :=
  let lines := stripped_lines (strip door_type_text) in
  if length lines <? 2 then [] else
  match split_ws (hd [] lines) with
  | [] => []
  | base_code :: _ =>
      let first_line_parts := split_ws (hd [] lines) in
      let num_doors := list_count base_code first_line_parts in
      if num_doors <? 2 then [] else
      let doors :=
        split_main door_type_text lines base_code num_doors
                   fire_rating description location remarks in
      match doors with
      | _ :: _ => doors
      | [] =>
          if contains (txt "FD1 FD1") door_type_text
          then legacy_fd1 door_type_text
                          fire_rating description location remarks
          else doors
      end
  end.

Definition pairs (doors : list DoorRecord) : list (text * text) :=
  map (fun d => (door_type d, dimensions d)) doors.

(** ** [extract_doors_from_table] *)

Definition Row := list Cell.
Definition Table := list Row.

(** [row and row[0]], then [row[0].strip()]: the label of a row, when its
    first cell is a non-empty string. *)
Definition row_label (row : Row) : option text :=
  match row with
  | Some s :: _ => if truthy s then Some (strip s) else None
  | _ => None
  end.

Definition label_is (name : string) (row : Row) : bool :=
  match row_label row with
  | Some label => text_eqb label (txt name)
  | None => false
  end.

(** The indices of the rows labelled DOOR TYPE, in increasing order; [i] is
    the index of the first row of [rows]. *)
Fixpoint door_type_rows_from (i : nat) (rows : list Row) : list nat :=
  match rows with
  | [] => []
  | row :: rest =>
      if label_is "DOOR TYPE" row
      then i :: door_type_rows_from (S i) rest
      else door_type_rows_from (S i) rest
  end.

Definition door_type_row_indices (table : Table) : list nat :=
  door_type_rows_from 0 table.

(** What the label scan of one section leaves behind. *)
Record Section := mkSection {
  door_type_row_idx : nat;
  section_end : nat;
  fire_rating_row_idx : option nat;
  description_row_idx : option nat;
  location_row_idx : option nat;
  remarks_row_idx : option nat
}.

Definition set_fire (s : Section) (i : nat) : Section :=
  mkSection (door_type_row_idx s) (section_end s) (Some i)
            (description_row_idx s) (location_row_idx s) (remarks_row_idx s).
Definition set_description (s : Section) (i : nat) : Section :=
  mkSection (door_type_row_idx s) (section_end s) (fire_rating_row_idx s)
            (Some i) (location_row_idx s) (remarks_row_idx s).
Definition set_location (s : Section) (i : nat) : Section :=
  mkSection (door_type_row_idx s) (section_end s) (fire_rating_row_idx s)
            (description_row_idx s) (Some i) (remarks_row_idx s).
Definition set_remarks (s : Section) (i : nat) : Section :=
  mkSection (door_type_row_idx s) (section_end s) (fire_rating_row_idx s)
            (description_row_idx s) (location_row_idx s) (Some i).
Definition set_end (s : Section) (i : nat) : Section :=
  mkSection (door_type_row_idx s) i (fire_rating_row_idx s)
            (description_row_idx s) (location_row_idx s) (remarks_row_idx s).

(** The loop [for i in range(door_type_row_idx, section_end)] over the
    row indices [idxs], with its [break] at an ELEVATION row. *)
Fixpoint scan_labels (table : Table) (idxs : list nat) (s : Section)
  : Section :=
  match idxs with
  | [] => s
  | i :: rest =>
      let row := nth i table [] in
      if label_is "FIRE-RATING" row || label_is "FIRE RATING" row
      then scan_labels table rest (set_fire s i)
      else if label_is "DESCRIPTION" row
      then scan_labels table rest (set_description s i)
      else if label_is "LOCATION" row
      then scan_labels table rest (set_location s i)
      else if label_is "REMARKS" row
      then scan_labels table rest (set_remarks s i)
      else if label_is "ELEVATION" row
      then set_end s i
      else scan_labels table rest s
  end.

(** One section: from its anchor row up to [stop], the next anchor or the
    length of the table. *)
Definition resolve_section (table : Table) (start stop : nat) : Section :=
  scan_labels table (seq start (stop - start))
              (mkSection start stop None None None None).

(** All sections of a table, given the anchor indices still to process. *)
Fixpoint sections_from (table : Table) (indices : list nat) : list Section :=
  match indices with
  | [] => []
  | start :: rest =>
      resolve_section table start
        (match rest with
         | next :: _ => next
         | [] => length table
         end)
      :: sections_from table rest
  end.

Definition resolve_sections (table : Table) : list Section :=
  sections_from table (door_type_row_indices table).

(** [table[idx] if idx is not None else []] *)
Definition field_row (table : Table) (idx : option nat) : Row :=
  match idx with
  | Some i => nth i table []
  | None => []
  end.

(** [clean_text(row[col_idx]) if col_idx < len(row) and row[col_idx]
    else ""] *)
Definition field_at (row : Row) (col_idx : nat) : text :=
  match nth_error row col_idx with
  | Some (Some s) => if truthy s then clean_text (Some s) else []
  | _ => []
  end.

(** The test applied to a following cell by the continuation merge. *)
Definition is_continuation (next_text : Cell) : bool :=
  match next_text with
  | Some s => truthy s && truthy (strip s) && match_dim_line (strip s)
  | None => false
  end.

(** The [while] loop of the continuation merge.  Each iteration increases
    [next_col_idx], and the guard [next_col_idx < col_idx + 3] fails at the
    third iteration at the latest, so three units of [steps] let the guard
    decide. *)
Fixpoint merge_scan (steps : nat) (door_type_row : Row)
    (door_type_text : text) (col_idx next_col_idx : nat) : text :=
  match steps with
  | O => door_type_text
  | S steps' =>
      if (next_col_idx <? length door_type_row)
         && (next_col_idx <? col_idx + 3) then
        let next_text := nth next_col_idx door_type_row None in
        if is_continuation next_text
        then door_type_text ++ SP ++ match next_text with
                                     | Some s => s
                                     | None => []
                                     end
        else merge_scan steps' door_type_row door_type_text col_idx
                        (S next_col_idx)
      else door_type_text
  end.

Definition merge_continuation (door_type_row : Row) (door_type_text : text)
    (col_idx : nat) : text :=
  merge_scan 3 door_type_row door_type_text col_idx (col_idx + 1).

(** The multi-door test on the merged text. *)
Definition has_multiple_doors (door_type_text : text) : bool :=
  let first_word := hd [] (split_ws door_type_text) in
  (truthy first_word
   && contains first_word (skipn (length first_word) door_type_text))
  || (1 <? count (txt "(W)x") door_type_text).

(** The body of the loop over the columns of one section. *)
Definition process_column
    (door_type_row fire_rating_row description_row location_row
       remarks_row : Row) (col_idx : nat) : list DoorRecord :=
  match nth col_idx door_type_row None with
  | None => []
  | Some cell =>
      if negb (truthy cell) || negb (truthy (strip cell)) then []
      else if contains (txt "TENDER DRAWING") cell
              || contains (txt "DRAWING TITLE") cell then []
      else
        let door_type_text :=
          merge_continuation door_type_row cell col_idx in
        match parse_door_type (Some door_type_text) with
        | None => []
        | Some (door_code, dims) =>
            if negb (truthy door_code) then [] else
            let fire_rating := field_at fire_rating_row col_idx in
            let description := field_at description_row col_idx in
            let location := field_at location_row col_idx in
            let remarks := field_at remarks_row col_idx in
            if has_multiple_doors door_type_text
            then split_multi_door_column door_type_text fire_rating
                                         description location remarks
            else [mkDoor door_code dims fire_rating description
                         location remarks]
        end
  end.

Definition process_section (table : Table) (s : Section) : list DoorRecord :=
  let door_type_row := nth (door_type_row_idx s) table [] in
  flat_map
    (process_column door_type_row
       (field_row table (fire_rating_row_idx s))
       (field_row table (description_row_idx s))
       (field_row table (location_row_idx s))
       (field_row table (remarks_row_idx s)))
    (seq 1 (length door_type_row - 1)).

Definition extract_doors_from_table (table : Table) : list DoorRecord :=
  if length table <? 2 then []
  else
    match door_type_row_indices table with
    | [] => []
    | _ :: _ => flat_map (process_section table) (resolve_sections table)
    end.

(** ** [is_valid_door_entry] *)

Definition invalid_patterns : list text :=
  map txt
    [ "TENDER DRAWING"; "DRAWING TITLE"; "PRECINCT NAME"; "PROJECT TITLE";
      "LOT NO"; "MUKIM NO"; "JOB TITLE"; "DRAWN BY"; "CHECKED BY"; "SCALE";
      "DATE"; "REV"; "DESCRIPTION" ]%string.

Definition is_valid_door_entry (door : DoorRecord) : bool :=
  let door_type := strip (door_type door) in
  if existsb (fun pattern => contains pattern (upper door_type))
             invalid_patterns then false
  else if startswith (txt "000(W)x") door_type || match_dim_line door_type
  then false
  else if negb (has_upper door_type) then false
  else true.

(** ** [process_page] *)

(** The outcome of a call that may raise. *)
Inductive outcome (A : Type) : Type :=
| Returns (a : A)
| Raises.
Arguments Returns {A} a.
Arguments Raises {A}.

(** An element of the list walked by the loop over the tables of a page.
    The table source yields grids of optional strings, on which
    [extract_doors_from_table] is total.  [Defective] stands for an object
    of another type, on which the call would raise (a grid of two rows
    with a number in column 0, say, whose [strip] call fails); the table
    source does not yield it, and it is there for the handler's branch of
    the loop. *)
Inductive TableObj : Type :=
| Grid (table : Table)
| Defective.

Definition extract_call (t : TableObj) : outcome (list DoorRecord) :=
  match t with
  | Grid table => Returns (extract_doors_from_table table)
  | Defective => Raises
  end.

(** A page is known by what [page.extract_tables()] does. *)
Definition Page := outcome (list TableObj).

(** The loop over the tables inside the [try] block.  [doors] is the list
    the page returns; when a call raises, the handler is entered, the rest
    of the loop is not run and [doors] keeps what it held. *)
Fixpoint tables_loop (tables : list TableObj) (doors : list DoorRecord)
  : list DoorRecord :=
  match tables with
  | [] => doors
  | table :: rest =>
      match extract_call table with
      | Raises => doors
      | Returns table_doors =>
          let valid_doors := filter is_valid_door_entry table_doors in
          match valid_doors with
          | [] => tables_loop rest doors
          | _ :: _ => tables_loop rest (doors ++ valid_doors)
          end
      end
  end.

Definition process_page (page : Page) : list DoorRecord :=
  match page with
  | Raises => []
  | Returns tables =>
      match tables with
      | [] => []
      | _ :: _ => tables_loop tables []
      end
  end.

(** The loop of [main] over the pages of the document. *)
Definition process_pages (pages : list Page) : list DoorRecord :=
  flat_map process_page pages.

(** What the table source does on a page, table by table: it extracts the
    grid of the table, or raises. *)
Definition PageSource := list (outcome Table).

(** [page.extract_tables()], the one call by which [process_page] obtains
    all tables of a page.  The table source is outside the repository; what
    is modelled is that the call returns the grids of all tables in one
    list, and that it raises, returning no list, when the extraction of one
    of the tables raises. *)
Fixpoint extract_tables (source : PageSource) : outcome (list Table) :=
  match source with
  | [] => Returns []
  | Raises :: _ => Raises
  | Returns table :: rest =>
      match extract_tables rest with
      | Returns tables => Returns (table :: tables)
      | Raises => Raises
      end
  end.

(** The page as [process_page] meets it. *)
Definition page_of (source : PageSource) : Page :=
  match extract_tables source with
  | Returns tables => Returns (map Grid tables)
  | Raises => Raises
  end.

(** ** The callers: [main] and [extract_from_pdf] *)

(** [s.replace(old, "")] for a non-empty [old]: the occurrences of [old],
    found from left to right without overlap, are left out; [skip] counts
    the characters of the last occurrence still to be passed over. *)
Fixpoint remove_from (skip : nat) (old s : text) : text :=
  match s with
  | [] => []
  | c :: s' =>
      match skip with
      | S k => remove_from k old s'
      | O => if startswith old s then remove_from (length old - 1) old s'
             else c :: remove_from 0 old s'
      end
  end.

(** [field.replace(label, "").strip()] *)
Definition strip_label (label : string) (field : text) : text :=
  strip (remove_from 0 (txt label) field).

(** The clean-up of one record shared by [main] and [extract_from_pdf]. *)
Definition strip_labels (door : DoorRecord) : DoorRecord :=
  mkDoor (door_type door) (dimensions door)
         (strip_label "FIRE-RATING" (fire_rating door))
         (strip_label "DESCRIPTION" (description door))
         (strip_label "LOCATION" (location door))
         (strip_label "REMARKS" (remarks door)).

(** The last step of the post-processing of [main]: empty dimensions are
    taken from the door type when it holds a dimension. *)
Definition backfill_dimensions (door : DoorRecord) : DoorRecord :=
  if negb (truthy (dimensions door)) then
    match search_dim (door_type door) with
    | Some m => mkDoor (door_type door) m (fire_rating door)
                       (description door) (location door) (remarks door)
    | None => door
    end
  else door.

(** One iteration of the post-processing loop of [main]. *)
Definition post_process (door : DoorRecord) : DoorRecord :=
  backfill_dimensions (strip_labels door).

(** The records [main] writes for a document. *)
Definition main_doors (pages : list Page) : list DoorRecord :=
  map post_process (process_pages pages).

(** The loop of [extract_from_pdf] over the tables of a page; [all_doors]
    is the one list shared by all pages, and a raising call leaves the
    loop for the next page. *)
Fixpoint app_tables_loop (tables : list TableObj) (all_doors : list DoorRecord)
  : list DoorRecord :=
  match tables with
  | [] => all_doors
  | table :: rest =>
      match extract_call table with
      | Raises => all_doors
      | Returns table_doors =>
          app_tables_loop rest
            (all_doors ++ filter is_valid_door_entry table_doors)
      end
  end.

(** The loop of [extract_from_pdf] over the pages. *)
Fixpoint app_pages_loop (pages : list Page) (all_doors : list DoorRecord)
  : list DoorRecord :=
  match pages with
  | [] => all_doors
  | page :: rest =>
      match page with
      | Raises => app_pages_loop rest all_doors
      | Returns tables =>
          match tables with
          | [] => app_pages_loop rest all_doors
          | _ :: _ =>
              app_pages_loop rest (app_tables_loop tables all_doors)
          end
      end
  end.

(** [extract_from_pdf(pdf_file)] *)
Definition extract_from_pdf (pages : list Page) : list DoorRecord :=
  map strip_labels (app_pages_loop pages []).

(** The dictionary [door_type_counts] of [main], as the list of its items
    in insertion order; [dict_incr] is
    [counts[dt] = counts.get(dt, 0) + 1]. *)
Fixpoint dict_get (dt : text) (counts : list (text * nat)) (default : nat)
  : nat :=
  match counts with
  | [] => default
  | (k, n) :: rest => if text_eqb k dt then n else dict_get dt rest default
  end.

Fixpoint dict_set (dt : text) (v : nat) (counts : list (text * nat))
  : list (text * nat) :=
  match counts with
  | [] => [(dt, v)]
  | (k, n) :: rest =>
      if text_eqb k dt then (k, v) :: rest else (k, n) :: dict_set dt v rest
  end.

Definition dict_incr (counts : list (text * nat)) (door : DoorRecord)
  : list (text * nat) :=
  dict_set (door_type door) (dict_get (door_type door) counts 0 + 1) counts.

Definition door_type_counts (all_doors : list DoorRecord)
  : list (text * nat) :=
  fold_left dict_incr all_doors [].

(** ** Notions used in the statements *)

(** The valid records of one grid. *)
Definition valid_doors_of (table : Table) : list DoorRecord :=
  filter is_valid_door_entry (extract_doors_from_table table).

(** A character that is not whitespace. *)
Definition not_space (c : ascii) : bool := negb (is_space c).

(** The first and the last character of a pattern are not whitespace. *)
Definition first_not_space (m : text) : bool :=
  match m with
  | c :: _ => not_space c
  | [] => false
  end.

Fixpoint last_not_space (m : text) : bool :=
  match m with
  | [] => false
  | [c] => not_space c
  | _ :: m' => last_not_space m'
  end.

(** The first non-empty line of a door-type text, trimmed, and its first
    whitespace-delimited token. *)
Definition first_line (s : text) : text := hd [] (stripped_lines (strip s)).
Definition first_token (s : text) : text := hd [] (split_ws (first_line s)).

(** Every field row index recorded in a section lies in [[lo, hi)]. *)
Definition fields_in (lo hi : nat) (s : Section) : Prop :=
  forall i,
    fire_rating_row_idx s = Some i \/ description_row_idx s = Some i \/
    location_row_idx s = Some i \/ remarks_row_idx s = Some i ->
    lo <= i < hi.

(** What the label scan from row [start] up to row [stop] guarantees. *)
Definition section_spec (table : Table) (start stop : nat) : Prop :=
  let s := resolve_section table start stop in
  door_type_row_idx s = start /\
  section_end s <= stop /\
  fields_in start (section_end s) s /\
  forall e,
    start <= e < stop ->
    label_is "ELEVATION" (nth e table []) = true ->
    (forall j, start <= j < e ->
               label_is "ELEVATION" (nth j table []) = false) ->
    section_end s = e /\ s = resolve_section table start e.

(** The shape [<digits>(W)x<digits>(H)] of a dimension token. *)
Definition dim_shape (m : text) : Prop :=
  exists w h,
    m = w ++ txt "(W)x" ++ h ++ txt "(H)" /\
    truthy w = true /\ forallb is_digit w = true /\
    truthy h = true /\ forallb is_digit h = true.

(** The variant kept by the parser's loop is empty or a variant token
    without whitespace. *)
Definition variant_ok (variant : text) : Prop :=
  variant = [] \/
  (is_variant_token variant = true /\ forallb not_space variant = true).

(** The shape of a variant collected by the splitter: digits followed by
    uppercase letters, and not a number of three or more digits. *)
Definition split_variant (v : text) : Prop :=
  exists dg up,
    v = dg ++ up /\ truthy dg = true /\ forallb is_digit dg = true /\
    forallb is_upper up = true /\ variant_shape_ok v = true.

(** The number of doors the splitter reads off the first line. *)
Definition base_code_count (door_type_text : text) : nat :=
  list_count (first_token door_type_text)
             (split_ws (first_line door_type_text)).

(** [t] holds [m] as a substring. *)
Definition has_sub (m t : text) : Prop := exists a b, t = a ++ m ++ b.

(** Dimensions that are empty or hold a dimension token. *)
Definition dims_ok (dims : text) : Prop := dims = [] \/ has_dim dims = true.

(** The rows recorded in a section carry the labels they were recorded
    for. *)
Definition labels_ok (table : Table) (s : Section) : Prop :=
  (forall i, fire_rating_row_idx s = Some i ->
             label_is "FIRE-RATING" (nth i table []) = true \/
             label_is "FIRE RATING" (nth i table []) = true) /\
  (forall i, description_row_idx s = Some i ->
             label_is "DESCRIPTION" (nth i table []) = true) /\
  (forall i, location_row_idx s = Some i ->
             label_is "LOCATION" (nth i table []) = true) /\
  (forall i, remarks_row_idx s = Some i ->
             label_is "REMARKS" (nth i table []) = true).

(** A list of row indices that increases and stays below [n]. *)
Fixpoint chain (n : nat) (l : list nat) : Prop :=
  match l with
  | [] => True
  | a :: rest =>
      a < n /\
      match rest with
      | b :: _ => a < b
      | [] => True
      end /\
      chain n rest
  end.

(** What the repair loop makes of a collected dimension: the dimension
    itself, or the dimension after one character of which [str.isdigit]
    holds. *)
Definition repaired (d : text) : Prop :=
  dim_shape d \/
  exists c dim,
    is_str_digit c = true /\ dim_shape dim /\
    startswith (txt "000(W)x") dim = true /\ d = c :: dim.

(** The text of a cell appended by the continuation merge. *)
Definition cell_text (c : Cell) : text :=
  match c with
  | Some s => s
  | None => []
  end.

(** ** Sample inputs *)

Module Samples.

(** A two-row table with one door column. *)
Definition one_door_table (cell : text) : Table :=
  [ [Some (txt "DOOR TYPE"); Some cell];
    [Some (txt "FIRE-RATING"); Some (txt "1 HR")] ].

(** A door-type cell whose dimension line carries a trailing note. *)
Definition md_clear : text :=
  txt "MD" ++ NL ++ txt "1250(W)x2240(H) CLEAR" ++ NL ++ txt "1".

(** A plain single-door cell. *)
Definition md_plain : text :=
  txt "MD" ++ NL ++ txt "1250(W)x2240(H)" ++ NL ++ txt "1".

(** Two FD1 doors written on one line. *)
Definition fd1_one_line : text :=
  txt "FD1 FD1 650(W)x2190(H) 800(W)x2190(H)".

(** Two DB doors written on one line. *)
Definition db_one_line : text :=
  txt "DB DB 900(W)x2190(H) 1000(W)x2190(H)".

(** Two DB doors, the second dimension split after its leading digit. *)
Definition db_two_lines : text :=
  txt "DB DB" ++ NL ++ txt "9 900(W)x2190(H) 10 1 000(W)x2190(H)".


(** A one-row table. *)
Definition one_row_table : Table :=
  [ [Some (txt "DOOR TYPE"); Some md_plain] ].

(** A table with two header rows and an ELEVATION row in the first
    section. *)
Definition two_section_table : Table :=
  [ [Some (txt "DOOR TYPE"); Some (txt "MD")];
    [Some (txt "FIRE-RATING"); Some (txt "1 HR")];
    [Some (txt "ELEVATION"); None];
    [Some (txt "REMARKS"); Some (txt "below the drawing")];
    [Some (txt "DOOR TYPE"); Some (txt "GD")];
    [Some (txt "LOCATION"); Some (txt "LOBBY")] ].

End Samples.

(** * Properties *)

(** ** The examples of the docstrings *)

Example parse_MD :
  parse_door_type (Some (txt "MD" ++ NL ++ txt "1250(W)x2240(H)" ++ NL ++ txt "1"))
  = Some (txt "MD/1", txt "1250(W)x2240(H)").
Proof. reflexivity. Qed.

Example parse_FDM :
  parse_door_type (Some (txt "FDM" ++ NL ++ txt "1")) = Some (txt "FDM/1", []).
Proof. reflexivity. Qed.

Example parse_FD1 :
  parse_door_type
    (Some (txt "FD1 1-HR FIRE RATED" ++ NL ++ txt "10S 1000(W)x2190(H)"))
  = Some (txt "FD1/10S", txt "1000(W)x2190(H)").
Proof. reflexivity. Qed.

Example split_DB :
  pairs (split_multi_door_column
           (txt "DB DB" ++ NL ++ txt "9 900(W)x2190(H) 10 1 000(W)x2190(H)")
           [] [] [] [])
  = [(txt "DB/9", txt "900(W)x2190(H)"); (txt "DB/10", txt "1000(W)x2190(H)")].
Proof. reflexivity. Qed.

Example split_FMD2 :
  pairs (split_multi_door_column
           (txt "FMD2 FMD2 FMD2" ++ NL ++
            txt "475(W)x2190(H) 600(W)x2190(H) 800(W)x2190(H)" ++ NL ++
            txt "4A 6 8")
           [] [] [] [])
  = [(txt "FMD2/4A", txt "475(W)x2190(H)");
     (txt "FMD2/6", txt "600(W)x2190(H)");
     (txt "FMD2/8", txt "800(W)x2190(H)")].
Proof. reflexivity. Qed.

(** ** Strings: equality, prefixes, substrings *)

Lemma text_eqb_refl (a : text) : text_eqb a a = true.
Proof.
  induction a as [|c a IH]; simpl; [reflexivity|].
  now rewrite Ascii.eqb_refl.
Qed.

Lemma text_eqb_eq (a b : text) : text_eqb a b = true <-> a = b.
Proof.
  split.
  - revert b; induction a as [|x a IH]; intros [|y b]; simpl;
      try discriminate; try reflexivity.
    intros H; apply andb_true_iff in H as [Hxy Hab].
    apply Ascii.eqb_eq in Hxy. apply IH in Hab. now subst.
  - intros ->. apply text_eqb_refl.
Qed.

Lemma startswith_app (p r : text) : startswith p (p ++ r) = true.
Proof.
  induction p as [|c p IH]; simpl; [reflexivity|].
  now rewrite Ascii.eqb_refl.
Qed.

Lemma startswith_inv (p s : text) :
  startswith p s = true -> exists r, s = p ++ r.
Proof.
  revert s; induction p as [|c p IH]; intros s H.
  - now exists s.
  - destruct s as [|y s]; simpl in H; [discriminate|].
    apply andb_true_iff in H as [Hc Hp]. apply Ascii.eqb_eq in Hc; subst y.
    destruct (IH _ Hp) as [r ->]. now exists r.
Qed.

Lemma contains_startswith (p s : text) :
  startswith p s = true -> contains p s = true.
Proof. intros H. destruct s; simpl; rewrite H; reflexivity. Qed.

Lemma contains_app (p a b : text) : contains p (a ++ p ++ b) = true.
Proof.
  induction a as [|c a IH].
  - change ([] ++ p ++ b) with (p ++ b).
    apply contains_startswith, startswith_app.
  - simpl. rewrite IH. apply orb_true_r.
Qed.

Lemma contains_inv (p s : text) :
  contains p s = true -> exists a b, s = a ++ p ++ b.
Proof.
  induction s as [|c s IH]; simpl; intros H.
  - rewrite orb_false_r in H. apply startswith_inv in H as [r Hr].
    now exists [], r.
  - apply orb_true_iff in H as [H|H].
    + apply startswith_inv in H as [r Hr]. now exists [], r.
    + destruct (IH H) as (a & b & ->). now exists (c :: a), b.
Qed.

(** ** C10: short tables *)

(** C10. A table with fewer than two rows yields the empty record list,
    whatever its rows hold. *)
Theorem extract_short_table (table : Table) :
  length table < 2 -> extract_doors_from_table table = [].
Proof.
  intros H. unfold extract_doors_from_table.
  destruct (length table <? 2) eqn:E; [reflexivity|].
  apply Nat.ltb_ge in E. lia.
Qed.

Lemma extract_short_table_witness :
  length Samples.one_row_table < 2 /\
  label_is "DOOR TYPE" (hd [] Samples.one_row_table) = true /\
  parse_door_type (Some Samples.md_plain)
    = Some (txt "MD/1", txt "1250(W)x2240(H)") /\
  extract_doors_from_table Samples.one_row_table = [].
Proof.
  assert (H : length Samples.one_row_table < 2) by (simpl; lia).
  split; [exact H|].
  split; [reflexivity|].
  split; [reflexivity|].
  apply (extract_short_table _ H).
Defined.

(** ** C3: the legacy FD1 rule *)

(** The records of [split_multi_door_column] never come from the legacy
    rule: the function returns nothing at one of its three guards, or the
    records of the main algorithm for at least two doors. *)
Lemma split_never_legacy (door_type_text fr d l r : text) :
  split_multi_door_column door_type_text fr d l r = [] \/
  exists base_code num_doors,
    2 <= num_doors /\
    split_multi_door_column door_type_text fr d l r
    = split_main door_type_text (stripped_lines (strip door_type_text))
                 base_code num_doors fr d l r.
Proof.
  unfold split_multi_door_column.
  destruct (length _ <? 2); [now left|].
  destruct (split_ws _) as [|base_code parts] eqn:Hparts; [now left|].
  destruct (list_count _ _ <? 2) eqn:Hn; [now left|].
  apply Nat.ltb_ge in Hn. right.
  exists base_code, (list_count base_code (base_code :: parts)).
  split; [exact Hn|].
  remember (list_count base_code (base_code :: parts)) as n eqn:En.
  destruct n as [|n]; [lia|]. reflexivity.
Qed.

(** C3. On a cell that holds the two-token sequence FD1 FD1 on a single
    line, the main algorithm returns at its first guard, the function
    returns no record, and the legacy rule, which would give two FD1
    records with the two dimensions of the line, is not applied; a table
    whose door column is that cell yields no record. *)
Theorem legacy_rule_not_applied :
  contains (txt "FD1 FD1") Samples.fd1_one_line = true /\
  split_multi_door_column Samples.fd1_one_line [] [] [] [] = [] /\
  pairs (legacy_fd1 Samples.fd1_one_line [] [] [] [])
  = [(txt "FD1", txt "650(W)x2190(H)"); (txt "FD1", txt "800(W)x2190(H)")] /\
  has_multiple_doors Samples.fd1_one_line = true /\
  extract_doors_from_table (Samples.one_door_table Samples.fd1_one_line) = [].
Proof. repeat split; reflexivity. Qed.

(** ** C1: the shape of the dimensions field *)

(** C1. The single-door path keeps the whole dimension line when the line
    does not start with a variant: the cell MD / 1250(W)x2240(H) CLEAR / 1
    is emitted with the trailing word in its dimensions, which then do not
    fully match the dimension pattern. *)
Theorem dimensions_keep_trailing_text :
  process_page (Returns [Grid (Samples.one_door_table Samples.md_clear)])
  = [mkDoor (txt "MD/1") (txt "1250(W)x2240(H) CLEAR") (txt "1 HR")
            [] [] []] /\
  truthy (txt "1250(W)x2240(H) CLEAR") = true /\
  fullmatch_dim (txt "1250(W)x2240(H) CLEAR") = false.
Proof. repeat split; reflexivity. Qed.

(** ** C2: a table whose extraction raises *)

Lemma tables_loop_grids (tables : list Table) (rest : list TableObj)
    (doors : list DoorRecord) :
  tables_loop (map Grid tables ++ rest) doors
  = tables_loop rest (doors ++ flat_map valid_doors_of tables).
Proof.
  revert doors; induction tables as [|t ts IH]; intros doors; simpl.
  - now rewrite app_nil_r.
  - fold (valid_doors_of t). destruct (valid_doors_of t) as [|d ds] eqn:E.
    + rewrite IH. reflexivity.
    + rewrite IH, <- app_assoc. reflexivity.
Qed.

Lemma process_page_grids (tables : list Table) (rest : list TableObj) :
  process_page (Returns (map Grid tables ++ rest))
  = tables_loop rest (flat_map valid_doors_of tables).
Proof.
  unfold process_page.
  destruct (map Grid tables ++ rest) as [|o os] eqn:E.
  - destruct tables; [|discriminate]. simpl in E. subst rest. reflexivity.
  - rewrite <- E. apply (tables_loop_grids tables rest []).
Qed.

Lemma extract_tables_raises (source : PageSource) :
  In Raises source -> extract_tables source = Raises.
Proof.
  induction source as [|o rest IH]; [intros []|].
  intros [-> | H]; [reflexivity|].
  cbn [extract_tables]. destruct o as [table|]; [|reflexivity].
  now rewrite (IH H).
Qed.

Lemma extract_tables_returns (tables : list Table) :
  extract_tables (map Returns tables) = Returns tables.
Proof.
  induction tables as [|t ts IH]; [reflexivity|].
  cbn [map extract_tables]. now rewrite IH.
Qed.

(** C2, as the code has it. When the extraction of one table of a page
    raises, the call that extracts the tables of the page raises and the
    page contributes no record: none of its other tables is processed; the
    following pages are processed.  When no extraction raises, every table
    of the page is processed and its valid records are emitted, in table
    order. *)
Theorem raise_drops_the_page :
  (forall (source : PageSource) (pages : list Page),
      In Raises source ->
      process_page (page_of source) = [] /\
      process_pages (page_of source :: pages) = process_pages pages) /\
  (forall tables : list Table,
      process_page (page_of (map Returns tables))
      = flat_map valid_doors_of tables).
Proof.
  split.
  - intros source pages H.
    assert (E : process_page (page_of source) = [])
      by (unfold page_of; now rewrite (extract_tables_raises source H)).
    split; [exact E|]. unfold process_pages. cbn [flat_map]. now rewrite E.
  - intros tables. unfold page_of. rewrite extract_tables_returns.
    rewrite <- (app_nil_r (map Grid tables)). now rewrite process_page_grids.
Qed.

Lemma raise_drops_the_page_witness :
  let good := Samples.one_door_table Samples.md_plain in
  In Raises [Returns good; Raises] /\
  process_page (page_of [Returns good; Raises]) = [] /\
  process_pages [page_of [Returns good; Raises]; page_of [Returns good]]
  = [mkDoor (txt "MD/1") (txt "1250(W)x2240(H)") (txt "1 HR") [] [] []].
Proof.
  intros good.
  assert (H : In Raises [Returns good; Raises]) by (right; left; reflexivity).
  destruct (proj1 raise_drops_the_page [Returns good; Raises]
                  [page_of [Returns good]] H) as [E1 E2].
  split; [exact H|]. split; [exact E1|]. rewrite E2. reflexivity.
Defined.

(** C2, as stated, fails: a table is extracted and has a valid record, the
    extraction of another table of the same page raises, and the record
    is not emitted. *)
Lemma raise_drops_other_table :
  exists d,
    In d (valid_doors_of (Samples.one_door_table Samples.md_plain)) /\
    ~ In d (process_page
              (page_of [Returns (Samples.one_door_table Samples.md_plain);
                        Raises])).
Proof.
  exists (mkDoor (txt "MD/1") (txt "1250(W)x2240(H)") (txt "1 HR") [] [] []).
  split; [left; reflexivity | intros []].
Qed.

(** ** Strings: stripping and the dimension pattern *)

Lemma drop_while_snoc (p : ascii -> bool) (l : text) (c : ascii) :
  drop_while p (l ++ [c])
  = if forallb p l then (if p c then [] else [c])
    else drop_while p l ++ [c].
Proof.
  induction l as [|x l IH]; simpl; [reflexivity|].
  destruct (p x); simpl; [exact IH | reflexivity].
Qed.

Lemma forallb_rev (p : ascii -> bool) (l : text) :
  forallb p (rev l) = forallb p l.
Proof.
  induction l as [|x l IH]; simpl; [reflexivity|].
  rewrite forallb_app, IH. simpl. rewrite andb_true_r. apply andb_comm.
Qed.

Lemma drop_while_all (p : ascii -> bool) (l : text) :
  forallb p l = true -> drop_while p l = [].
Proof.
  induction l as [|x l IH]; simpl; [reflexivity|].
  destruct (p x); simpl; [exact IH | discriminate].
Qed.

Lemma drop_while_head (p : ascii -> bool) (l : text) (c : ascii) (t : text) :
  drop_while p l = c :: t -> p c = false.
Proof.
  induction l as [|x l IH]; simpl; [discriminate|].
  destruct (p x) eqn:E; [exact IH|].
  intros H; injection H as -> _. exact E.
Qed.

(** [rstrip] by recursion from the left. *)
Lemma rstrip_cons (c : ascii) (r : text) :
  rstrip (c :: r)
  = if is_space c && forallb is_space r then [] else c :: rstrip r.
Proof.
  unfold rstrip. simpl rev. rewrite drop_while_snoc, forallb_rev.
  destruct (forallb is_space r) eqn:E.
  - rewrite andb_true_r.
    rewrite (drop_while_all is_space (rev r)) by now rewrite forallb_rev.
    destruct (is_space c); reflexivity.
  - rewrite andb_false_r, rev_app_distr. reflexivity.
Qed.

Lemma rstrip_no_space (s : text) :
  forallb not_space s = true -> rstrip s = s.
Proof.
  induction s as [|c s IH]; [reflexivity|].
  simpl. intros H. apply andb_true_iff in H as [Hc Hs].
  rewrite rstrip_cons, (IH Hs).
  unfold not_space in Hc. apply negb_true_iff in Hc. now rewrite Hc.
Qed.

Lemma lstrip_no_space (s : text) :
  forallb not_space s = true -> lstrip s = s.
Proof.
  destruct s as [|c s]; [reflexivity|].
  simpl. intros H. apply andb_true_iff in H as [Hc _].
  unfold not_space in Hc. apply negb_true_iff in Hc.
  unfold lstrip. simpl. now rewrite Hc.
Qed.

Lemma strip_no_space (s : text) :
  forallb not_space s = true -> strip s = s.
Proof.
  intros H. unfold strip. rewrite (lstrip_no_space s H).
  now apply rstrip_no_space.
Qed.

(** A stripped string does not end with a whitespace character. *)
Lemma strip_last (s a : text) (c : ascii) :
  strip s = a ++ [c] -> is_space c = false.
Proof.
  unfold strip, rstrip. intros H.
  apply (f_equal (@rev ascii)) in H.
  rewrite rev_involutive, rev_app_distr in H. simpl in H.
  exact (drop_while_head _ _ _ _ H).
Qed.

(** A non-empty stripped string starts with a character that is not
    whitespace. *)
Lemma strip_first (s r : text) (c : ascii) :
  strip s = c :: r -> is_space c = false.
Proof.
  unfold strip. intros H.
  destruct (lstrip s) as [|x l] eqn:E; [discriminate|].
  pose proof (drop_while_head _ _ _ _ E) as Hx.
  rewrite rstrip_cons, Hx in H. simpl in H. now injection H as <- _.
Qed.

Lemma span_spec (p : ascii -> bool) (s a b : text) :
  span p s = (a, b) -> s = a ++ b /\ forallb p a = true.
Proof.
  revert a b; induction s as [|c s IH]; intros a b; simpl.
  - intros H; injection H as <- <-. now split.
  - destruct (p c) eqn:Ec.
    + destruct (span p s) as [a' b'] eqn:E. intros H; injection H as <- <-.
      destruct (IH _ _ eq_refl) as [-> Ha]. simpl. now rewrite Ec.
    + intros H; injection H as <- <-. now split.
Qed.

Lemma lit_spec (p s r : text) : lit p s = Some r -> s = p ++ r.
Proof.
  revert s; induction p as [|x p IH]; intros s; simpl.
  - intros H; now injection H as ->.
  - destruct s as [|y s]; [discriminate|].
    destruct (Ascii.eqb x y) eqn:E; [|discriminate].
    apply Ascii.eqb_eq in E; subst y. intros H. now rewrite (IH _ H).
Qed.

Lemma digit_not_space (c : ascii) : is_digit c = true -> not_space c = true.
Proof.
  unfold is_digit, not_space, is_space, in_range.
  intros H. apply andb_true_iff in H as [H1 H2].
  apply N.leb_le in H1, H2. apply negb_true_iff, orb_false_iff.
  split; apply andb_false_iff.
  - right. apply N.leb_gt. lia.
  - right. apply N.leb_gt. lia.
Qed.

Lemma digits_no_space (s : text) :
  forallb is_digit s = true -> forallb not_space s = true.
Proof.
  induction s as [|c s IH]; simpl; [reflexivity|].
  intros H. apply andb_true_iff in H as [Hc Hs].
  now rewrite (digit_not_space c Hc), (IH Hs).
Qed.

(** A match of the dimension pattern is a prefix of the subject and holds
    no whitespace. *)
Lemma match_dim_spec (s m r : text) :
  match_dim s = Some (m, r) -> s = m ++ r /\ forallb not_space m = true.
Proof.
  unfold match_dim.
  destruct (span is_digit s) as [w r1] eqn:E1.
  destruct (truthy w); [|discriminate].
  destruct (lit (txt "(W)x") r1) as [r2|] eqn:E2; [|discriminate].
  destruct (span is_digit r2) as [h r3] eqn:E3.
  destruct (truthy h); [|discriminate].
  destruct (lit (txt "(H)") r3) as [r4|] eqn:E4; [|discriminate].
  intros H; injection H as <- <-.
  apply span_spec in E1 as [-> Hw]. apply span_spec in E3 as [-> Hh].
  apply lit_spec in E2 as ->. apply lit_spec in E4 as ->.
  split.
  - repeat rewrite <- app_assoc. f_equal. simpl.
    now rewrite <- app_assoc.
  - change (forallb not_space
              (w ++ txt "(W)x" ++ h ++ txt "(H)") = true).
    rewrite !forallb_app, (digits_no_space _ Hw), (digits_no_space _ Hh).
    reflexivity.
Qed.

(** On a stripped string the anchored pattern of the merge and of the
    validator is a full match. *)
Lemma match_dim_line_strip (s : text) :
  match_dim_line (strip s) = fullmatch_dim (strip s).
Proof.
  unfold match_dim_line, fullmatch_dim.
  destruct (match_dim (strip s)) as [[m r]|] eqn:E; [|reflexivity].
  destruct r as [|c [|c' r]]; try reflexivity.
  apply match_dim_spec in E as [E _].
  apply strip_last in E. simpl.
  destruct (Ascii.eqb c "010") eqn:Ec; [|reflexivity].
  apply Ascii.eqb_eq in Ec; subst c. discriminate.
Qed.

Lemma fullmatch_dim_truthy (s : text) :
  fullmatch_dim s = true -> truthy s = true.
Proof.
  destruct s; [discriminate | reflexivity].
Qed.

(** ** C8: the continuation merge *)

(** A following cell is merged exactly when its trimmed text is, as a
    whole, one dimension token. *)
Lemma is_continuation_fullmatch (s : text) :
  is_continuation (Some s) = fullmatch_dim (strip s).
Proof.
  unfold is_continuation. rewrite match_dim_line_strip.
  destruct (fullmatch_dim (strip s)) eqn:E.
  - rewrite (fullmatch_dim_truthy _ E).
    destruct s; [discriminate E | reflexivity].
  - now rewrite andb_false_r.
Qed.

(** C8. The merge looks at the two cells after the current column and at
    nothing else: it appends, after a space, the first of them whose
    trimmed text is as a whole one dimension token, and otherwise leaves
    the text as it is.  Cells three or more columns ahead, and cells whose
    trimmed text only contains the pattern, never change the result. *)
Theorem merge_continuation_window (row : Row) (door_type_text : text)
    (col_idx : nat) :
  (forall s, is_continuation (Some s) = fullmatch_dim (strip s)) /\
  is_continuation None = false /\
  merge_continuation row door_type_text col_idx
  = if is_continuation (nth (col_idx + 1) row None)
    then door_type_text ++ SP ++ cell_text (nth (col_idx + 1) row None)
    else if is_continuation (nth (col_idx + 2) row None)
    then door_type_text ++ SP ++ cell_text (nth (col_idx + 2) row None)
    else door_type_text.
Proof.
  split; [exact is_continuation_fullmatch|]. split; [reflexivity|].
  unfold merge_continuation. cbn [merge_scan].
  replace (S (col_idx + 1)) with (col_idx + 2) by lia.
  destruct (col_idx + 1 <? length row) eqn:L1.
  - replace (col_idx + 1 <? col_idx + 3) with true
      by (symmetry; apply Nat.ltb_lt; lia).
    cbn [andb].
    destruct (is_continuation (nth (col_idx + 1) row None)); [reflexivity|].
    replace (col_idx + 2 <? col_idx + 3) with true
      by (symmetry; apply Nat.ltb_lt; lia).
    rewrite andb_true_r.
    destruct (col_idx + 2 <? length row) eqn:L2.
    + destruct (is_continuation (nth (col_idx + 2) row None)); [reflexivity|].
      replace (S (col_idx + 2) <? col_idx + 3) with false
        by (symmetry; apply Nat.ltb_ge; lia).
      rewrite andb_false_r. reflexivity.
    + apply Nat.ltb_ge in L2. rewrite (nth_overflow row None L2).
      reflexivity.
  - apply Nat.ltb_ge in L1. cbn [andb].
    rewrite (nth_overflow row None L1).
    rewrite (nth_overflow row None) by lia. reflexivity.
Qed.

(** ** C7: what the validator guarantees of an emitted record *)

Lemma lstrip_split (s : text) :
  exists a, s = a ++ lstrip s /\ forallb is_space a = true.
Proof.
  induction s as [|c s (a & Ha & Hsp)]; [now exists []|].
  unfold lstrip in *. simpl. destruct (is_space c) eqn:Ec.
  - exists (c :: a). simpl. rewrite Ec, Hsp. split; [now f_equal | reflexivity].
  - now exists [].
Qed.

Lemma rstrip_split (s : text) :
  exists b, s = rstrip s ++ b /\ forallb is_space b = true.
Proof.
  induction s as [|c s (b & Hb & Hsp)]; [now exists []|].
  rewrite rstrip_cons.
  destruct (is_space c && forallb is_space s) eqn:E.
  - exists (c :: s). split; [reflexivity|]. exact E.
  - exists b. split; [simpl; now f_equal | exact Hsp].
Qed.

(** A string is its stripped form between two runs of whitespace. *)
Lemma strip_split (s : text) :
  exists a b, s = a ++ strip s ++ b /\
              forallb is_space a = true /\ forallb is_space b = true.
Proof.
  destruct (lstrip_split s) as (a & Ha & Hsa).
  destruct (rstrip_split (lstrip s)) as (b & Hb & Hsb).
  exists a, b. unfold strip. now rewrite <- Hb.
Qed.

Lemma rstrip_prefix (p r : text) :
  forallb not_space p = true -> rstrip (p ++ r) = p ++ rstrip r.
Proof.
  induction p as [|c p IH]; [reflexivity|].
  simpl. intros H. apply andb_true_iff in H as [Hc Hp].
  rewrite rstrip_cons, (IH Hp).
  unfold not_space in Hc. apply negb_true_iff in Hc. now rewrite Hc.
Qed.

Lemma startswith_strip (p s : text) :
  first_not_space p = true -> forallb not_space p = true ->
  startswith p s = true -> startswith p (strip s) = true.
Proof.
  intros Hf Hp H. apply startswith_inv in H as [r ->].
  unfold strip. destruct p as [|c p]; [discriminate|].
  simpl in Hf. unfold not_space in Hf. apply negb_true_iff in Hf.
  unfold lstrip. cbn [app drop_while]. rewrite Hf.
  change (c :: p ++ r) with ((c :: p) ++ r).
  rewrite (rstrip_prefix _ r Hp). apply startswith_app.
Qed.

Lemma fullmatch_dim_strip (s : text) :
  fullmatch_dim s = true -> match_dim_line (strip s) = true.
Proof.
  intros H. assert (Hs : strip s = s).
  { unfold fullmatch_dim in H.
    destruct (match_dim s) as [[m r]|] eqn:E; [|discriminate].
    destruct r; [|discriminate].
    apply match_dim_spec in E as [E Hm]. rewrite app_nil_r in E. subst m.
    now apply strip_no_space. }
  rewrite match_dim_line_strip, Hs. exact H.
Qed.

Lemma space_to_upper (c : ascii) : is_space c = true -> to_upper c = c.
Proof.
  unfold to_upper, is_space, is_lower, in_range. intros H.
  replace ((97 <=? code c)%N && (code c <=? 122)%N) with false; [reflexivity|].
  symmetry. apply andb_false_iff. left. apply N.leb_gt.
  apply orb_true_iff in H.
  destruct H as [H|H]; apply andb_true_iff in H as [H1 H2];
    apply N.leb_le in H1, H2; lia.
Qed.

Lemma upper_spaces (w : text) : forallb is_space w = true -> upper w = w.
Proof.
  induction w as [|c w IH]; simpl; [reflexivity|].
  intros H. apply andb_true_iff in H as [Hc Hw].
  now rewrite (space_to_upper c Hc), (IH Hw).
Qed.

Lemma startswith_space (m : text) (c : ascii) (y : text) :
  first_not_space m = true -> is_space c = true ->
  startswith m (c :: y) = false.
Proof.
  destruct m as [|x m]; [discriminate|]. simpl. unfold not_space.
  intros Hx Hc. destruct (Ascii.eqb x c) eqn:E; [|reflexivity].
  apply Ascii.eqb_eq in E; subst x. now rewrite Hc in Hx.
Qed.

Lemma contains_skip_spaces (m a y : text) :
  first_not_space m = true -> forallb is_space a = true ->
  contains m (a ++ y) = contains m y.
Proof.
  intros Hm. induction a as [|c a IH]; [reflexivity|].
  simpl. intros H. apply andb_true_iff in H as [Hc Ha].
  change (startswith m (c :: a ++ y)) with (startswith m (c :: (a ++ y))).
  now rewrite (startswith_space m c (a ++ y) Hm Hc), (IH Ha).
Qed.

Lemma spaces_last (m : text) :
  forallb is_space m = true -> last_not_space m = false.
Proof.
  induction m as [|c m IH]; [reflexivity|]. simpl.
  intros H. apply andb_true_iff in H as [Hc Hm].
  destruct m; [unfold not_space; now rewrite Hc | now apply IH].
Qed.

Lemma startswith_before_spaces (m x b : text) :
  last_not_space m = true -> forallb is_space b = true ->
  startswith m (x ++ b) = true -> startswith m x = true.
Proof.
  intros Hm Hb. revert x. induction m as [|c m IH]; [discriminate|].
  intros [|y x] H.
  - simpl app in H. apply startswith_inv in H as [r Hr]. subst b.
    rewrite forallb_app in Hb. apply andb_true_iff in Hb as [Hb _].
    now rewrite (spaces_last _ Hb) in Hm.
  - simpl in *. apply andb_true_iff in H as [Hc H]. rewrite Hc. simpl.
    destruct m as [|c' m]; [reflexivity|]. now apply IH.
Qed.

Lemma contains_before_spaces (m x b : text) :
  first_not_space m = true -> last_not_space m = true ->
  forallb is_space b = true ->
  contains m (x ++ b) = true -> contains m x = true.
Proof.
  intros Hf Hl Hb. induction x as [|c x IH]; intros H.
  - simpl app in H.
    rewrite <- (app_nil_r b), (contains_skip_spaces m b [] Hf Hb) in H.
    exact H.
  - simpl in H. apply orb_true_iff in H as [H|H].
    + apply contains_startswith.
      apply (startswith_before_spaces m (c :: x) b Hl Hb H).
    + simpl. rewrite (IH H). apply orb_true_r.
Qed.

Lemma contains_upper_strip (m s : text) :
  first_not_space m = true -> last_not_space m = true ->
  contains m (upper s) = true -> contains m (upper (strip s)) = true.
Proof.
  intros Hf Hl H.
  destruct (strip_split s) as (a & b & Hs & Ha & Hb).
  rewrite Hs in H. unfold upper in *. rewrite !map_app in H.
  fold (upper a) in H. fold (upper b) in H.
  rewrite (upper_spaces a Ha), (upper_spaces b Hb) in H.
  rewrite (contains_skip_spaces m a _ Hf Ha) in H.
  exact (contains_before_spaces m _ b Hf Hl Hb H).
Qed.

Lemma invalid_patterns_trimmed :
  forallb (fun m => first_not_space m && last_not_space m) invalid_patterns
  = true.
Proof. reflexivity. Qed.

(** What acceptance by the validator says of the door type itself. *)
Lemma valid_door_type (d : DoorRecord) :
  is_valid_door_entry d = true ->
  has_upper (door_type d) = true /\
  (forall m, In m invalid_patterns ->
             contains m (upper (door_type d)) = false) /\
  startswith (txt "000(W)x") (door_type d) = false /\
  fullmatch_dim (door_type d) = false.
Proof.
  unfold is_valid_door_entry.
  destruct (existsb _ invalid_patterns) eqn:Epat; [discriminate|].
  destruct (startswith _ _ || match_dim_line _) eqn:Edim; [discriminate|].
  destruct (has_upper (strip (door_type d))) eqn:Eup; [|discriminate].
  intros _. apply orb_false_iff in Edim as [Esw Elin].
  split; [|split; [|split]].
  - destruct (strip_split (door_type d)) as (a & b & Hs & _ & _).
    rewrite Hs. unfold has_upper in *. rewrite !existsb_app, Eup.
    now rewrite orb_true_r.
  - intros m Hm.
    destruct (contains m (upper (door_type d))) eqn:E; [|reflexivity].
    pose proof invalid_patterns_trimmed as Htr.
    rewrite forallb_forall in Htr. specialize (Htr m Hm).
    apply andb_true_iff in Htr as [Hf Hl].
    apply (contains_upper_strip m _ Hf Hl) in E.
    assert (Hex : existsb
                    (fun pattern =>
                       contains pattern (upper (strip (door_type d))))
                    invalid_patterns = true)
      by (apply existsb_exists; now exists m).
    rewrite Hex in Epat. discriminate.
  - destruct (startswith (txt "000(W)x") (door_type d)) eqn:E; [|reflexivity].
    apply startswith_strip in E; [|reflexivity|reflexivity].
    rewrite E in Esw. discriminate.
  - destruct (fullmatch_dim (door_type d)) eqn:E; [|reflexivity].
    apply fullmatch_dim_strip in E. rewrite E in Elin. discriminate.
Qed.

Lemma tables_loop_valid (tables : list TableObj) (doors : list DoorRecord) :
  Forall (fun d => is_valid_door_entry d = true) doors ->
  Forall (fun d => is_valid_door_entry d = true) (tables_loop tables doors).
Proof.
  revert doors; induction tables as [|t ts IH]; intros doors Hd; simpl;
    [exact Hd|].
  destruct (extract_call t) as [table_doors|]; [|exact Hd].
  destruct (filter is_valid_door_entry table_doors) as [|v vs] eqn:E;
    [now apply IH|].
  apply IH, Forall_app. split; [exact Hd|].
  rewrite <- E. apply Forall_forall. intros x Hx.
  now apply filter_In in Hx.
Qed.

Lemma process_page_valid (page : Page) :
  Forall (fun d => is_valid_door_entry d = true) (process_page page).
Proof.
  destruct page as [[|t ts]|]; simpl; try constructor.
  apply (tables_loop_valid (t :: ts) []). constructor.
Qed.

(** C7. Every record emitted for a document has passed the validator, and
    so its door type holds an uppercase letter, its uppercased form holds
    none of the metadata markers, and it neither starts with 000(W)x nor
    is as a whole a dimension token. *)
Theorem emitted_door_type_valid (pages : list Page) (d : DoorRecord) :
  In d (process_pages pages) ->
  is_valid_door_entry d = true /\
  has_upper (door_type d) = true /\
  (forall m, In m invalid_patterns ->
             contains m (upper (door_type d)) = false) /\
  startswith (txt "000(W)x") (door_type d) = false /\
  fullmatch_dim (door_type d) = false.
Proof.
  intros H. unfold process_pages in H. apply in_flat_map in H as (pg & _ & H).
  pose proof (process_page_valid pg) as Hv.
  rewrite Forall_forall in Hv. specialize (Hv d H).
  split; [exact Hv | now apply valid_door_type].
Qed.

Lemma emitted_door_type_valid_witness :
  let d := mkDoor (txt "MD/1") (txt "1250(W)x2240(H)") (txt "1 HR") [] [] [] in
  let pages := [Returns [Grid (Samples.one_door_table Samples.md_plain)]] in
  In d (process_pages pages) /\
  is_valid_door_entry d = true /\
  has_upper (door_type d) = true /\
  (forall m, In m invalid_patterns ->
             contains m (upper (door_type d)) = false) /\
  startswith (txt "000(W)x") (door_type d) = false /\
  fullmatch_dim (door_type d) = false.
Proof.
  intros d pages.
  assert (H : In d (process_pages pages)) by (left; reflexivity).
  split; [exact H | exact (emitted_door_type_valid pages d H)].
Defined.

(** ** C4: what [parse_door_type] rejects *)

Lemma split_ws_cons (c : ascii) (s : text) :
  split_ws (c :: s)
  = if is_space c then split_ws s
    else match s with
         | [] => [[c]]
         | d :: _ =>
             if is_space d then [c] :: split_ws s
             else match split_ws s with
                  | t :: ts => (c :: t) :: ts
                  | [] => [[c]]
                  end
         end.
Proof. destruct s; reflexivity. Qed.

(** The first token of a string that starts with a character other than
    whitespace is a prefix of the string. *)
Lemma split_ws_first (r : text) (c : ascii) :
  is_space c = false ->
  exists t ts rest,
    split_ws (c :: r) = (c :: t) :: ts /\ c :: r = (c :: t) ++ rest.
Proof.
  revert c; induction r as [|d r IH]; intros c Hc.
  - exists [], [], []. simpl. now rewrite Hc.
  - rewrite split_ws_cons, Hc. destruct (is_space d) eqn:Hd.
    + exists [], (split_ws (d :: r)), (d :: r). now split.
    + destruct (IH d Hd) as (t & ts & rest & Hsplit & Hrest).
      rewrite Hsplit. exists (d :: t), ts, rest. split; [reflexivity|].
      simpl. f_equal. exact Hrest.
Qed.

(** The lines kept by the line filter are stripped and not empty. *)
Lemma stripped_lines_first (s line : text) (rest : list text) :
  stripped_lines s = line :: rest ->
  exists c r, line = c :: r /\ is_space c = false.
Proof.
  intros H. assert (Hin : In line (stripped_lines s))
    by (rewrite H; now left).
  unfold stripped_lines in Hin. apply filter_In in Hin as [Hin Ht].
  apply in_map_iff in Hin as (x & Hx & _).
  destruct line as [|c r]; [discriminate|].
  exists c, r. split; [reflexivity|]. exact (strip_first x r c Hx).
Qed.

(** The first line of a door-type text has a first token, and the token is
    a prefix of the line: indexing [code_parts[0]] cannot fail. *)
Lemma first_line_token (s line : text) (rest : list text) :
  stripped_lines s = line :: rest ->
  exists tok toks tail,
    split_ws line = tok :: toks /\ truthy tok = true /\ line = tok ++ tail.
Proof.
  intros H. destruct (stripped_lines_first s line rest H) as (c & r & -> & Hc).
  destruct (split_ws_first r c Hc) as (t & ts & tail & Hs & Ht).
  exists (c :: t), ts, tail. now rewrite Hs.
Qed.

Lemma startswith_prefix (p t tail : text) :
  startswith p t = true -> startswith p (t ++ tail) = true.
Proof.
  intros H. apply startswith_inv in H as [r ->].
  rewrite <- app_assoc. apply startswith_app.
Qed.

(** C4, as the code has it. The parser returns no code whenever the first
    line holds no uppercase letter, or the first token starts with 000(W),
    or the first line holds PRECINCT, DRAWING or PROJECT. *)
Theorem parse_rejects (s : text) :
  has_upper (first_line s) = false \/
  startswith (txt "000(W)") (first_token s) = true \/
  contains (txt "PRECINCT") (first_line s) = true \/
  contains (txt "DRAWING") (first_line s) = true \/
  contains (txt "PROJECT") (first_line s) = true ->
  parse_door_type (Some s) = None.
Proof.
  unfold first_token, first_line, parse_door_type.
  destruct (truthy s); [|reflexivity]. cbn [negb].
  destruct (stripped_lines (strip s)) as [|line rest] eqn:E;
    [reflexivity|].
  cbn [hd]. intros H.
  destruct (has_upper line) eqn:Hup; [|reflexivity]. cbn [negb].
  destruct (first_line_token _ _ _ E) as (tok & toks & tail & Hs & _ & Hl).
  rewrite Hs in *. cbn [hd] in H.
  destruct H as [H|[H|H]]; [discriminate| |].
  - rewrite Hl at 1. now rewrite (startswith_prefix _ _ tail H).
  - destruct (startswith (txt "000(W)") line); [reflexivity|].
    assert (Hc : contains (txt "PRECINCT") line
                 || contains (txt "DRAWING") line
                 || contains (txt "PROJECT") line = true).
    { destruct H as [H|[H|H]]; rewrite H; rewrite ?orb_true_r; reflexivity. }
    now rewrite Hc.
Qed.

Lemma parse_rejects_witness :
  startswith (txt "000(W)") (first_token (txt "000(W)x2190(H) MD")) = true /\
  parse_door_type (Some (txt "000(W)x2190(H) MD")) = None.
Proof.
  split; [reflexivity|].
  apply (parse_rejects (txt "000(W)x2190(H) MD")).
  right; left. reflexivity.
Defined.

(** C4, as stated, fails: a first token without an uppercase letter is
    accepted when the first line holds one elsewhere. *)
Lemma lowercase_first_token_accepted :
  has_upper (first_token (txt "abc DEF")) = false /\
  parse_door_type (Some (txt "abc DEF")) = Some (txt "abc", []).
Proof. split; reflexivity. Qed.

(** Past the three tests the parser returns a code, which starts with the
    first token and is not empty. *)
Lemma parse_accepts (s : text) :
  stripped_lines (strip s) <> [] ->
  has_upper (first_line s) = true ->
  startswith (txt "000(W)") (first_line s) = false ->
  contains (txt "PRECINCT") (first_line s) = false ->
  contains (txt "DRAWING") (first_line s) = false ->
  contains (txt "PROJECT") (first_line s) = false ->
  exists door_code dims,
    parse_door_type (Some s) = Some (door_code, dims) /\
    startswith (first_token s) door_code = true.
Proof.
  unfold first_token, first_line, parse_door_type.
  destruct s as [|c0 s0]; [intros H; now destruct H|].
  set (s := c0 :: s0). cbn [truthy negb].
  destruct (stripped_lines (strip s)) as [|line rest] eqn:E;
    [intros H; now destruct H|].
  cbn [hd]. intros _ -> -> -> -> ->. cbn [negb orb].
  destruct (first_line_token _ _ _ E) as (tok & toks & tail & Hs & _ & _).
  rewrite Hs. cbn [hd].
  destruct (fold_left parse_line rest _) as [dims variant].
  destruct (truthy variant); eexists; eexists; (split; [reflexivity|]).
  - apply startswith_app.
  - rewrite <- (app_nil_r tok) at 2. apply startswith_app.
Qed.

Lemma parse_code_truthy (c : Cell) (door_code dims : text) :
  parse_door_type c = Some (door_code, dims) -> truthy door_code = true.
Proof.
  unfold parse_door_type. destruct c as [s|]; [|discriminate].
  destruct (negb (truthy s)); [discriminate|].
  destruct (stripped_lines (strip s)) as [|line rest] eqn:E; [discriminate|].
  destruct (negb (has_upper line)); [discriminate|].
  destruct (startswith _ line); [discriminate|].
  destruct (_ || _ || _); [discriminate|].
  destruct (first_line_token _ _ _ E) as (tok & toks & tail & Hs & Ht & _).
  rewrite Hs. destruct (fold_left parse_line rest _) as [dm variant].
  destruct tok as [|x tok]; [discriminate|].
  destruct (truthy variant); intros H; injection H as <- _; reflexivity.
Qed.

(** ** C5: a base code repeated twice with two dimensions *)

(** C5, as the code has it. When the text has at least two non-empty
    lines, its first line holds the base code exactly twice among its
    tokens and the text holds exactly two dimension tokens, the splitter
    returns exactly two records; record [i] carries the [i]-th collected
    dimension (after the repair of a split-off leading digit) and the
    fire rating, description, location and remarks of the column, and its
    door type is the base code, alone or followed by a slash and a
    variant. *)
Theorem split_two_doors (door_type_text fr d l r : text) :
  2 <= length (stripped_lines (strip door_type_text)) ->
  list_count (first_token door_type_text)
             (split_ws (first_line door_type_text)) = 2 ->
  length (findall_dim door_type_text) = 2 ->
  exists t0 t1 d0 d1,
    split_multi_door_column door_type_text fr d l r
    = [mkDoor t0 d0 fr d l r; mkDoor t1 d1 fr d l r] /\
    dimensions_of door_type_text (stripped_lines (strip door_type_text))
    = [d0; d1] /\
    (forall t, t = t0 \/ t = t1 ->
       t = first_token door_type_text \/
       exists variant,
         truthy variant = true /\
         t = first_token door_type_text ++ txt "/" ++ variant).
Proof.
  unfold first_token, first_line, split_multi_door_column.
  set (lines := stripped_lines (strip door_type_text)).
  intros Hlen Hcount Hdims.
  destruct (length lines <? 2) eqn:E; [apply Nat.ltb_lt in E; lia|].
  destruct (split_ws (hd [] lines)) as [|base_code parts] eqn:Hparts;
    [discriminate|].
  cbn [hd] in *. rewrite Hcount. cbn [Nat.ltb Nat.leb].
  unfold split_main. cbn [seq map].
  assert (Hd : length (dimensions_of door_type_text lines) = 2)
    by (unfold dimensions_of; now rewrite length_map).
  destruct (dimensions_of door_type_text lines) as [|d0 [|d1 [|d2 ds]]] eqn:Ed;
    try discriminate.
  exists (door_type (make_door base_code (variants_of 2 lines) [d0; d1]
                               fr d l r 0)),
         (door_type (make_door base_code (variants_of 2 lines) [d0; d1]
                               fr d l r 1)),
         d0, d1.
  split; [reflexivity|]. split; [reflexivity|].
  intros t [-> | ->]; unfold make_door; cbn [door_type].
  - destruct (truthy (nth 0 (variants_of 2 lines) [])) eqn:Ev;
      [right; eexists; split; [exact Ev | reflexivity] | now left].
  - destruct (truthy (nth 1 (variants_of 2 lines) [])) eqn:Ev;
      [right; eexists; split; [exact Ev | reflexivity] | now left].
Qed.

Lemma split_two_doors_witness :
  pairs (split_multi_door_column Samples.db_two_lines
           (txt "1 HR") (txt "TIMBER DOOR") (txt "LOBBY") (txt "-"))
  = [(txt "DB/9", txt "900(W)x2190(H)"); (txt "DB/10", txt "1000(W)x2190(H)")]
  /\
  exists t0 t1 d0 d1,
    split_multi_door_column Samples.db_two_lines
      (txt "1 HR") (txt "TIMBER DOOR") (txt "LOBBY") (txt "-")
    = [mkDoor t0 d0 (txt "1 HR") (txt "TIMBER DOOR") (txt "LOBBY") (txt "-");
       mkDoor t1 d1 (txt "1 HR") (txt "TIMBER DOOR") (txt "LOBBY") (txt "-")].
Proof.
  split; [reflexivity|].
  destruct (split_two_doors Samples.db_two_lines
              (txt "1 HR") (txt "TIMBER DOOR") (txt "LOBBY") (txt "-"))
    as (t0 & t1 & d0 & d1 & H & _).
  - simpl. lia.
  - reflexivity.
  - reflexivity.
  - exists t0, t1, d0, d1. exact H.
Defined.

(** C5, as stated, fails: with the two codes and the two dimensions on one
    line the splitter returns at its first guard. *)
Lemma one_line_cell_not_split :
  list_count (first_token Samples.db_one_line)
             (split_ws (first_line Samples.db_one_line)) = 2 /\
  length (findall_dim Samples.db_one_line) = 2 /\
  split_multi_door_column Samples.db_one_line [] [] [] [] = [].
Proof. repeat split; reflexivity. Qed.

(** ** C9: the multi-door test overrides the single-door result *)

Lemma strip_truthy (s : text) : truthy (strip s) = true -> truthy s = true.
Proof. destruct s; [discriminate | reflexivity]. Qed.

(** C9. When the multi-door test holds of the merged text of a column that
    is not skipped and for which the parser returned a code, the records of
    the column are those of the splitter and the parser's result is not
    used; and there is a single-line cell, DB DB, for which the parser
    returns the code DB, a record with that door type would pass the
    validator, and yet the column and the table yield no record. *)
Theorem multi_door_overrides_parser :
  (forall (door_type_row fire_rating_row description_row location_row
             remarks_row : Row) (col_idx : nat) (cell door_code dims : text),
      nth col_idx door_type_row None = Some cell ->
      truthy (strip cell) = true ->
      contains (txt "TENDER DRAWING") cell = false ->
      contains (txt "DRAWING TITLE") cell = false ->
      parse_door_type
        (Some (merge_continuation door_type_row cell col_idx))
      = Some (door_code, dims) ->
      has_multiple_doors (merge_continuation door_type_row cell col_idx)
      = true ->
      process_column door_type_row fire_rating_row description_row
                     location_row remarks_row col_idx
      = split_multi_door_column
          (merge_continuation door_type_row cell col_idx)
          (field_at fire_rating_row col_idx)
          (field_at description_row col_idx)
          (field_at location_row col_idx)
          (field_at remarks_row col_idx)) /\
  (parse_door_type (Some (txt "DB DB")) = Some (txt "DB", []) /\
   is_valid_door_entry (mkDoor (txt "DB") [] (txt "1 HR") [] [] []) = true /\
   has_multiple_doors (txt "DB DB") = true /\
   split_multi_door_column (txt "DB DB") (txt "1 HR") [] [] [] = [] /\
   extract_doors_from_table (Samples.one_door_table (txt "DB DB")) = []).
Proof.
  split; [|repeat split; reflexivity].
  intros dtr frr der lor rer col cell door_code dims Hcell Hstrip Ht Hd
         Hparse Hmulti.
  unfold process_column.
  rewrite Hcell, Hstrip, (strip_truthy _ Hstrip), Ht, Hd. cbn [negb orb].
  rewrite Hparse, (parse_code_truthy _ _ _ Hparse), Hmulti. reflexivity.
Qed.

Lemma multi_door_overrides_parser_witness :
  let row := [Some (txt "DOOR TYPE"); Some Samples.db_two_lines] in
  process_column row [] [] [] [] 1
  = split_multi_door_column (merge_continuation row Samples.db_two_lines 1)
                            [] [] [] [] /\
  pairs (process_column row [] [] [] [] 1)
  = [(txt "DB/9", txt "900(W)x2190(H)"); (txt "DB/10", txt "1000(W)x2190(H)")].
Proof.
  intros row. split; [|reflexivity].
  apply (proj1 multi_door_overrides_parser row [] [] [] [] 1
               Samples.db_two_lines (txt "DB/9") (txt "900(W)x2190(H)"));
    reflexivity.
Defined.

(** ** C6: sections of a table *)

Lemma rows_from_sound (rows : list Row) (k i : nat) :
  In i (door_type_rows_from k rows) ->
  k <= i < k + length rows /\
  label_is "DOOR TYPE" (nth (i - k) rows []) = true.
Proof.
  revert k; induction rows as [|row rows IH]; intros k; simpl; [tauto|].
  destruct (label_is "DOOR TYPE" row) eqn:E.
  - intros [<- | H].
    + rewrite Nat.sub_diag. split; [lia | exact E].
    + destruct (IH _ H) as [Hb Hl]. split; [lia|].
      replace (i - k) with (S (i - S k)) by lia. exact Hl.
  - intros H. destruct (IH _ H) as [Hb Hl]. split; [lia|].
    replace (i - k) with (S (i - S k)) by lia. exact Hl.
Qed.

Lemma rows_from_complete (rows : list Row) (k i : nat) :
  k <= i < k + length rows ->
  label_is "DOOR TYPE" (nth (i - k) rows []) = true ->
  In i (door_type_rows_from k rows).
Proof.
  revert k; induction rows as [|row rows IH]; intros k; simpl; [lia|].
  intros Hb Hl. destruct (Nat.eq_dec i k) as [->|Hne].
  - rewrite Nat.sub_diag in Hl. rewrite Hl. now left.
  - replace (i - k) with (S (i - S k)) in Hl by lia.
    assert (Hin : In i (door_type_rows_from (S k) rows))
      by (apply IH; [lia | exact Hl]).
    destruct (label_is "DOOR TYPE" row); [now right | exact Hin].
Qed.

Lemma rows_from_increasing (rows : list Row) (k a b : nat) (rest : list nat) :
  door_type_rows_from k rows = a :: b :: rest -> a < b.
Proof.
  revert k; induction rows as [|row rows IH]; intros k; simpl; [discriminate|].
  destruct (label_is "DOOR TYPE" row).
  - intros H; injection H as <- H.
    assert (Hin : In b (door_type_rows_from (S k) rows))
      by (rewrite H; now left).
    apply rows_from_sound in Hin. lia.
  - apply IH.
Qed.

(** The anchors are exactly the rows labelled DOOR TYPE. *)
Lemma door_type_row_indices_spec (table : Table) (i : nat) :
  In i (door_type_row_indices table) <->
  i < length table /\ label_is "DOOR TYPE" (nth i table []) = true.
Proof.
  unfold door_type_row_indices. split.
  - intros H. apply rows_from_sound in H. rewrite Nat.sub_0_r in H.
    split; [lia | tauto].
  - intros [Hb Hl]. apply rows_from_complete; [lia|].
    now rewrite Nat.sub_0_r.
Qed.

(** A row labelled ELEVATION carries none of the field labels. *)
Lemma elevation_row (row : Row) :
  label_is "ELEVATION" row = true ->
  label_is "FIRE-RATING" row = false /\ label_is "FIRE RATING" row = false /\
  label_is "DESCRIPTION" row = false /\ label_is "LOCATION" row = false /\
  label_is "REMARKS" row = false.
Proof.
  unfold label_is. destruct (row_label row) as [label|]; [|discriminate].
  intros H. apply text_eqb_eq in H. subst label. repeat split; reflexivity.
Qed.

Lemma scan_labels_elevation (table : Table) (e : nat) (rest : list nat)
    (s : Section) :
  label_is "ELEVATION" (nth e table []) = true ->
  scan_labels table (e :: rest) s = set_end s e.
Proof.
  intros H. destruct (elevation_row _ H) as (H1 & H2 & H3 & H4 & H5).
  cbn [scan_labels]. now rewrite H1, H2, H3, H4, H5, H.
Qed.

Lemma scan_labels_app (table : Table) (idxs rest : list nat) (s : Section) :
  (forall j, In j idxs -> label_is "ELEVATION" (nth j table []) = false) ->
  scan_labels table (idxs ++ rest) s
  = scan_labels table rest (scan_labels table idxs s).
Proof.
  revert s; induction idxs as [|i idxs IH]; intros s Hno; [reflexivity|].
  assert (Hi : label_is "ELEVATION" (nth i table []) = false)
    by (apply Hno; now left).
  assert (Hno' : forall j, In j idxs ->
                           label_is "ELEVATION" (nth j table []) = false)
    by (intros j Hj; apply Hno; now right).
  cbn [app scan_labels]. rewrite Hi.
  destruct (_ || _); [now apply IH|].
  destruct (label_is "DESCRIPTION" _); [now apply IH|].
  destruct (label_is "LOCATION" _); [now apply IH|].
  destruct (label_is "REMARKS" _); now apply IH.
Qed.

Lemma scan_labels_set_end (table : Table) (idxs : list nat) (s : Section)
    (e : nat) :
  (forall j, In j idxs -> label_is "ELEVATION" (nth j table []) = false) ->
  scan_labels table idxs (set_end s e)
  = set_end (scan_labels table idxs s) e.
Proof.
  revert s; induction idxs as [|i idxs IH]; intros s Hno; [reflexivity|].
  assert (Hi : label_is "ELEVATION" (nth i table []) = false)
    by (apply Hno; now left).
  assert (Hno' : forall j, In j idxs ->
                           label_is "ELEVATION" (nth j table []) = false)
    by (intros j Hj; apply Hno; now right).
  cbn [scan_labels]. rewrite Hi.
  destruct (_ || _); [now rewrite <- IH|].
  destruct (label_is "DESCRIPTION" _); [now rewrite <- IH|].
  destruct (label_is "LOCATION" _); [now rewrite <- IH|].
  destruct (label_is "REMARKS" _); [now rewrite <- IH | now apply IH].
Qed.

(** The invariant of the label scan: what has been recorded lies between
    the anchor and the row being looked at. *)
Lemma scan_labels_range (table : Table) (lo n a : nat) (s : Section) :
  fields_in lo a s -> lo <= a -> a + n <= section_end s ->
  let s' := scan_labels table (seq a n) s in
  fields_in lo (section_end s') s' /\
  section_end s' <= section_end s /\
  door_type_row_idx s' = door_type_row_idx s.
Proof.
  revert a s; induction n as [|n IH]; intros a s Hf Hlo Hend.
  - simpl. split; [|split; reflexivity].
    intros i Hi. specialize (Hf i Hi). lia.
  - assert (Hstep : forall s1,
               section_end s1 = section_end s ->
               door_type_row_idx s1 = door_type_row_idx s ->
               fields_in lo (S a) s1 ->
               let s' := scan_labels table (seq (S a) n) s1 in
               fields_in lo (section_end s') s' /\
               section_end s' <= section_end s /\
               door_type_row_idx s' = door_type_row_idx s).
    { intros s1 He Hd Hf1. rewrite <- He, <- Hd.
      apply IH; [exact Hf1 | lia | lia]. }
    assert (Hweak : fields_in lo (S a) s)
      by (intros i Hi; specialize (Hf i Hi); lia).
    cbn [seq scan_labels].
    destruct (_ || _).
    { apply Hstep; try reflexivity. destruct s. unfold fields_in, set_fire.
      cbn. intros i [H|[H|[H|H]]];
        [injection H as <-; lia | apply Hweak; cbn; tauto ..]. }
    destruct (label_is "DESCRIPTION" _).
    { apply Hstep; try reflexivity. destruct s.
      unfold fields_in, set_description.
      cbn. intros i [H|[H|[H|H]]];
        [apply Hweak; cbn; tauto | injection H as <-; lia
         | apply Hweak; cbn; tauto ..]. }
    destruct (label_is "LOCATION" _).
    { apply Hstep; try reflexivity. destruct s.
      unfold fields_in, set_location.
      cbn. intros i [H|[H|[H|H]]];
        [apply Hweak; cbn; tauto | apply Hweak; cbn; tauto
         | injection H as <-; lia | apply Hweak; cbn; tauto]. }
    destruct (label_is "REMARKS" _).
    { apply Hstep; try reflexivity. destruct s.
      unfold fields_in, set_remarks.
      cbn. intros i [H|[H|[H|H]]];
        [apply Hweak; cbn; tauto .. | injection H as <-; lia]. }
    destruct (label_is "ELEVATION" _).
    { destruct s. unfold fields_in, set_end in *. cbn in *.
      split; [exact Hf | split; [lia | reflexivity]]. }
    apply Hstep; [reflexivity | reflexivity | exact Hweak].
Qed.

Lemma resolve_section_spec (table : Table) (start stop : nat) :
  start <= stop -> section_spec table start stop.
Proof.
  intros Hle. unfold section_spec, resolve_section.
  set (s0 := mkSection start stop None None None None).
  destruct (scan_labels_range table start (stop - start) start s0)
    as (Hf & He & Hd).
  { intros i [H|[H|[H|H]]]; discriminate. }
  { lia. }
  { simpl. lia. }
  split; [exact Hd|]. split; [exact He|]. split; [exact Hf|].
  intros e Hb Hel Hno.
  assert (Hseq : seq start (stop - start)
                 = seq start (e - start) ++ e :: seq (S e) (stop - S e)).
  { replace (stop - start) with ((e - start) + S (stop - S e)) by lia.
    rewrite seq_app. replace (start + (e - start)) with e by lia.
    reflexivity. }
  assert (Hno' : forall j, In j (seq start (e - start)) ->
                           label_is "ELEVATION" (nth j table []) = false)
    by (intros j Hj; apply in_seq in Hj; apply Hno; lia).
  assert (Hres : scan_labels table (seq start (stop - start)) s0
                 = set_end (scan_labels table (seq start (e - start)) s0) e).
  { rewrite Hseq, (scan_labels_app _ _ _ _ Hno').
    now apply scan_labels_elevation. }
  split.
  - rewrite Hres. reflexivity.
  - rewrite Hres.
    change (mkSection start e None None None None) with (set_end s0 e).
    symmetry. now apply scan_labels_set_end.
Qed.

(** C6. In a table whose rows labelled DOOR TYPE are the two rows [a1] and
    [a2], the resolver makes two sections, the first scanned from [a1] up
    to [a2] and the second from [a2] up to the end of the table, and the
    extraction is the records of the one followed by the records of the
    other.  In each section the recorded field rows lie between the anchor
    and the end of the section, and the first row labelled ELEVATION ends
    the scan: the section ends there and is the one obtained by scanning
    up to that row only. *)
Theorem two_door_type_sections (table : Table) (a1 a2 : nat) :
  door_type_row_indices table = [a1; a2] ->
  a1 < a2 < length table /\
  (forall i, i < length table ->
     (label_is "DOOR TYPE" (nth i table []) = true <-> i = a1 \/ i = a2)) /\
  resolve_sections table
  = [resolve_section table a1 a2;
     resolve_section table a2 (length table)] /\
  section_spec table a1 a2 /\
  section_spec table a2 (length table) /\
  extract_doors_from_table table
  = process_section table (resolve_section table a1 a2)
    ++ process_section table (resolve_section table a2 (length table)).
Proof.
  intros H.
  assert (H12 : a1 < a2)
    by (unfold door_type_row_indices in H;
        exact (rows_from_increasing _ _ _ _ _ H)).
  assert (H2 : a2 < length table).
  { assert (Hin : In a2 (door_type_row_indices table))
      by (rewrite H; right; now left).
    apply door_type_row_indices_spec in Hin. tauto. }
  split; [lia|]. split; [|split; [|split; [|split]]].
  - intros i Hi. split.
    + intros Hl.
      assert (Hin : In i (door_type_row_indices table))
        by (apply door_type_row_indices_spec; tauto).
      rewrite H in Hin. destruct Hin as [<-|[<-|[]]]; tauto.
    + intros Hi'.
      assert (Hin : In i (door_type_row_indices table))
        by (rewrite H; destruct Hi' as [->| ->]; [now left | right; now left]).
      apply door_type_row_indices_spec in Hin. tauto.
  - unfold resolve_sections. rewrite H. reflexivity.
  - apply resolve_section_spec. lia.
  - apply resolve_section_spec. lia.
  - unfold extract_doors_from_table, resolve_sections.
    destruct (length table <? 2) eqn:E; [apply Nat.ltb_lt in E; lia|].
    rewrite H. cbn [sections_from flat_map]. now rewrite app_nil_r.
Qed.

Lemma two_door_type_sections_witness :
  door_type_row_indices Samples.two_section_table = [0; 4] /\
  resolve_sections Samples.two_section_table
  = [mkSection 0 2 (Some 1) None None None;
     mkSection 4 6 None None (Some 5) None] /\
  section_spec Samples.two_section_table 0 4 /\
  section_spec Samples.two_section_table 4 6.
Proof.
  assert (H : door_type_row_indices Samples.two_section_table = [0; 4])
    by reflexivity.
  destruct (two_door_type_sections Samples.two_section_table 0 4 H)
    as (_ & _ & _ & S1 & S2 & _).
  split; [exact H|]. split; [reflexivity|]. split; [exact S1 | exact S2].
Defined.

(** ** The dimensions of the multi-door path *)

Lemma span_app_stop (p : ascii -> bool) (a b : text) :
  forallb p a = true ->
  match b with [] => True | c :: _ => p c = false end ->
  span p (a ++ b) = (a, b).
Proof.
  intros Ha Hb. induction a as [|x a IH]; simpl in *.
  - destruct b as [|c b]; [reflexivity|]. simpl. now rewrite Hb.
  - apply andb_true_iff in Ha as [Hx Ha]. now rewrite Hx, (IH Ha).
Qed.

Lemma lit_app (p r : text) : lit p (p ++ r) = Some r.
Proof.
  induction p as [|x p IH]; simpl; [reflexivity|].
  now rewrite Ascii.eqb_refl.
Qed.

Lemma match_dim_shape (s m r : text) :
  match_dim s = Some (m, r) -> dim_shape m.
Proof.
  unfold match_dim.
  destruct (span is_digit s) as [w r1] eqn:E1.
  destruct (truthy w) eqn:Tw; [|discriminate].
  destruct (lit (txt "(W)x") r1) as [r2|] eqn:E2; [|discriminate].
  destruct (span is_digit r2) as [h r3] eqn:E3.
  destruct (truthy h) eqn:Th; [|discriminate].
  destruct (lit (txt "(H)") r3) as [r4|] eqn:E4; [|discriminate].
  intros H. apply span_spec in E1 as [_ Hw]. apply span_spec in E3 as [_ Hh].
  exists w, h. injection H as <- _. now repeat split.
Qed.

Lemma dim_shape_fullmatch (m : text) : dim_shape m -> fullmatch_dim m = true.
Proof.
  intros (w & h & -> & Tw & Hw & Th & Hh).
  unfold fullmatch_dim, match_dim.
  rewrite (span_app_stop is_digit w _ Hw) by reflexivity.
  rewrite Tw, lit_app.
  rewrite (span_app_stop is_digit h _ Hh) by reflexivity.
  rewrite Th. reflexivity.
Qed.


Lemma findall_dim_shape (s : text) (skip : nat) :
  Forall dim_shape (findall_dim_from skip s).
Proof.
  revert skip; induction s as [|c s IH]; intros skip; [constructor|].
  cbn [findall_dim_from]. destruct skip as [|k]; [|apply IH].
  destruct (match_dim (c :: s)) as [[m r]|] eqn:E; [|apply IH].
  constructor; [exact (match_dim_shape _ _ _ E) | apply IH].
Qed.

Lemma repair_scan_shape (dim prev : text) (toks : list text) (d : text) :
  repair_scan dim prev toks = Some d ->
  exists c, is_str_digit c = true /\ d = c :: dim.
Proof.
  revert prev; induction toks as [|tok toks IH]; intros prev;
    simpl; [discriminate|].
  destruct (text_eqb tok dim && isdigit prev && (length prev =? 1)) eqn:E;
    [|apply IH].
  intros H; injection H as <-.
  apply andb_true_iff in E as [E El]. apply andb_true_iff in E as [_ E].
  destruct prev as [|c [|c' prev]]; try discriminate.
  exists c. split; [|reflexivity].
  unfold isdigit in E. cbn in E. now rewrite andb_true_r in E.
Qed.

Lemma repair_dim_shape (all_tokens : list text) (dim : text) :
  dim_shape dim -> repaired (repair_dim all_tokens dim).
Proof.
  intros Hd. unfold repair_dim.
  destruct (startswith _ dim) eqn:Es; [|now left].
  destruct all_tokens as [|t0 rest]; [now left|].
  destruct (repair_scan dim t0 rest) as [d|] eqn:E; [|now left].
  destruct (repair_scan_shape _ _ _ _ E) as (c & Hc & ->).
  right. now exists c, dim.
Qed.

(** On the multi-door path the dimensions of a record are empty, or a
    dimension token, or a dimension token after the one character the
    repair put before it. *)
Lemma split_dimensions_shape (door_type_text fr d l r : text)
    (door : DoorRecord) :
  In door (split_multi_door_column door_type_text fr d l r) ->
  dimensions door = [] \/ repaired (dimensions door).
Proof.
  destruct (split_never_legacy door_type_text fr d l r)
    as [-> | (base_code & n & _ & ->)]; [intros []|].
  unfold split_main. intros H. apply in_map_iff in H as (i & <- & _).
  unfold make_door. cbn [dimensions].
  remember (dimensions_of door_type_text
              (stripped_lines (strip door_type_text))) as dims eqn:Ed.
  destruct (nth_in_or_default i dims []) as [Hin | Hnil];
    [|left; exact Hnil].
  right. subst dims. unfold dimensions_of in *.
  apply in_map_iff in Hin as (x & <- & Hx).
  apply repair_dim_shape.
  pose proof (findall_dim_shape door_type_text 0) as Hall.
  rewrite Forall_forall in Hall. now apply Hall.
Qed.

(** * Further properties of the extractor *)

(** ** [clean_text] *)

Lemma rstrip_nil_iff (s : text) :
  rstrip s = [] <-> forallb is_space s = true.
Proof.
  destruct s as [|c s]; [now split|].
  rewrite rstrip_cons. simpl.
  destruct (is_space c && forallb is_space s); split;
    (reflexivity || discriminate).
Qed.

(** The tokens of [split] are not empty and hold no whitespace. *)
Lemma split_ws_tokens (s : text) :
  Forall (fun t => truthy t = true /\ forallb not_space t = true)
         (split_ws s).
Proof.
  induction s as [|c s IH]; [constructor|].
  rewrite split_ws_cons. destruct (is_space c) eqn:Ec; [exact IH|].
  assert (Hc : not_space c = true) by (unfold not_space; now rewrite Ec).
  destruct s as [|d s']; [repeat constructor; simpl; now rewrite Hc|].
  destruct (is_space d).
  - constructor; [simpl; now rewrite Hc | exact IH].
  - destruct (split_ws (d :: s')) as [|t ts];
      [repeat constructor; simpl; now rewrite Hc|].
    inversion IH as [|? ? [Ht Hn] Hts]; subst.
    constructor; [|exact Hts]. simpl. now rewrite Hc, Hn.
Qed.

Lemma join_sp_nil (toks : list text) :
  Forall (fun t => truthy t = true /\ forallb not_space t = true) toks ->
  join_sp toks = [] -> toks = [].
Proof.
  destruct toks as [|t ts]; [reflexivity|].
  intros H. inversion H as [|? ? [Ht _] _]; subst.
  destruct t as [|c t]; [discriminate|]. destruct ts; discriminate.
Qed.

(** What is left of a collapsed string once its trailing whitespace is
    removed, inside a whitespace run and outside of one. *)
Lemma rstrip_sub_ws (s : text) :
  rstrip (sub_ws true s) = join_sp (split_ws s) /\
  rstrip (sub_ws false s)
  = match s with
    | [] => []
    | c :: _ =>
        if is_space c
        then match split_ws s with
             | [] => []
             | _ :: _ => " "%char :: join_sp (split_ws s)
             end
        else join_sp (split_ws s)
    end.
Proof.
  induction s as [|c s [IHa IHb]]; [split; reflexivity|].
  rewrite split_ws_cons. cbn [sub_ws]. destruct (is_space c) eqn:Ec.
  - split; [exact IHa|]. rewrite rstrip_cons. cbn [is_space andb].
    change (is_space " ") with true. cbn [andb].
    destruct (forallb is_space (sub_ws true s)) eqn:F.
    + apply rstrip_nil_iff in F. rewrite IHa in F.
      apply join_sp_nil in F; [|apply split_ws_tokens]. now rewrite F.
    + rewrite IHa. destruct (split_ws s) eqn:E; [|reflexivity].
      assert (F' : forallb is_space (sub_ws true s) = true)
        by (apply rstrip_nil_iff; now rewrite IHa).
      rewrite F' in F. discriminate.
  - assert (H : rstrip (c :: sub_ws false s)
                = join_sp
                    match s with
                    | [] => [[c]]
                    | d :: _ =>
                        if is_space d then [c] :: split_ws s
                        else match split_ws s with
                             | [] => [[c]]
                             | t :: ts => (c :: t) :: ts
                             end
                    end).
    2: { split; exact H. }
    rewrite rstrip_cons, Ec. cbn [andb]. rewrite IHb.
    destruct s as [|d s']; [reflexivity|].
    destruct (is_space d) eqn:Ed.
    + destruct (split_ws (d :: s')); reflexivity.
    + destruct (split_ws_first s' d Ed) as (t & ts & rest & Hs & _).
      rewrite Hs. destruct ts; reflexivity.
Qed.

Lemma lstrip_sub_ws_true (s : text) : lstrip (sub_ws true s) = sub_ws true s.
Proof.
  unfold lstrip. induction s as [|c s IH]; [reflexivity|].
  cbn [sub_ws]. destruct (is_space c) eqn:Ec; [exact IH|].
  cbn [drop_while]. now rewrite Ec.
Qed.

Lemma lstrip_sub_ws_false (s : text) :
  lstrip (sub_ws false s) = sub_ws true s.
Proof.
  destruct s as [|c s]; [reflexivity|]. cbn [sub_ws].
  destruct (is_space c) eqn:Ec.
  - unfold lstrip. cbn [drop_while]. change (is_space " ") with true.
    apply lstrip_sub_ws_true.
  - unfold lstrip. cbn [drop_while]. now rewrite Ec.
Qed.

Lemma clean_text_as_join (s : text) :
  clean_text (Some s) = join_sp (split_ws s).
Proof.
  unfold clean_text. destruct s as [|c s]; [reflexivity|].
  cbn [truthy]. unfold strip. rewrite lstrip_sub_ws_false.
  apply rstrip_sub_ws.
Qed.

(** X1. [clean_text] returns the tokens of the cell joined by single
    spaces, and the empty string for a cell that is [None]. *)
Theorem clean_text_join_split (c : Cell) :
  clean_text c = join_sp (split_ws (cell_text c)).
Proof.
  destruct c as [s|]; [apply clean_text_as_join | reflexivity].
Qed.

Lemma split_ws_token_then (t rest : text) :
  truthy t = true -> forallb not_space t = true ->
  split_ws (t ++ SP ++ rest) = t :: split_ws rest /\ split_ws t = [t].
Proof.
  induction t as [|c t IH]; [discriminate|].
  intros _ H. cbn [forallb] in H. apply andb_true_iff in H as [Hc Ht].
  unfold not_space in Hc. apply negb_true_iff in Hc.
  destruct t as [|d t'].
  - split.
    + change ([c] ++ SP ++ rest) with (c :: " "%char :: rest).
      rewrite split_ws_cons, Hc. change (is_space " ") with true. cbn iota.
      now rewrite split_ws_cons.
    + simpl. now rewrite Hc.
  - destruct (IH eq_refl Ht) as [IH1 IH2].
    assert (Hd : is_space d = false).
    { cbn [forallb] in Ht. apply andb_true_iff in Ht as [Hd _].
      unfold not_space in Hd. now apply negb_true_iff in Hd. }
    split.
    + change ((c :: d :: t') ++ SP ++ rest)
        with (c :: ((d :: t') ++ SP ++ rest)).
      rewrite split_ws_cons, Hc.
      change ((d :: t') ++ SP ++ rest) with (d :: (t' ++ SP ++ rest)) at 1.
      cbn iota. rewrite Hd.
      change (d :: t' ++ SP ++ rest) with ((d :: t') ++ SP ++ rest).
      now rewrite IH1.
    + rewrite split_ws_cons, Hc, Hd, IH2. reflexivity.
Qed.

(** [split] undoes [" ".join] on tokens. *)
Lemma split_ws_join_sp (toks : list text) :
  Forall (fun t => truthy t = true /\ forallb not_space t = true) toks ->
  split_ws (join_sp toks) = toks.
Proof.
  induction toks as [|t ts IH]; [reflexivity|].
  intros H. inversion H as [|? ? [Ht Hn] Hts]; subst.
  destruct ts as [|t2 ts].
  - apply (split_ws_token_then t [] Ht Hn).
  - change (join_sp (t :: t2 :: ts)) with (t ++ SP ++ join_sp (t2 :: ts)).
    rewrite (proj1 (split_ws_token_then t _ Ht Hn)), (IH Hts). reflexivity.
Qed.

(** A string of tokens joined by single spaces is left as it is. *)
Lemma clean_text_fixed (s : text) :
  clean_text (Some (join_sp (split_ws s))) = join_sp (split_ws s).
Proof.
  now rewrite clean_text_as_join, (split_ws_join_sp _ (split_ws_tokens s)).
Qed.

(** X2. [clean_text] keeps the tokens of the text, and cleaning a cleaned
    text changes nothing. *)
Theorem clean_text_idempotent (c : Cell) :
  split_ws (clean_text c) = split_ws (cell_text c) /\
  clean_text (Some (clean_text c)) = clean_text c.
Proof.
  destruct c as [s|]; [|split; reflexivity].
  cbn [cell_text]. rewrite !clean_text_as_join.
  rewrite (split_ws_join_sp _ (split_ws_tokens s)). now split.
Qed.

(** ** [parse_door_type] *)

Lemma strip_spaces (s : text) : forallb is_space s = true -> strip s = [].
Proof.
  intros H. unfold strip, lstrip. now rewrite (drop_while_all _ _ H).
Qed.

(** X3. A cell that is [None] or holds nothing but whitespace has no code. *)
Theorem parse_blank (c : Cell) :
  forallb is_space (cell_text c) = true -> parse_door_type c = None.
Proof.
  destruct c as [s|]; [|reflexivity]. cbn [cell_text]. intros H.
  unfold parse_door_type. destruct (negb (truthy s)); [reflexivity|].
  now rewrite (strip_spaces s H).
Qed.

Lemma parse_blank_witness :
  parse_door_type (Some (txt "  " ++ NL ++ txt " ")) = None.
Proof. apply parse_blank. reflexivity. Defined.

(** X4. The parser returns a code exactly when the text has a non-empty
    line and its first line holds an uppercase letter, does not start with
    000(W), and holds none of PRECINCT, DRAWING and PROJECT. *)
Theorem parse_returns_code_iff (s : text) :
  (exists door_code dims, parse_door_type (Some s) = Some (door_code, dims))
  <->
  stripped_lines (strip s) <> [] /\
  has_upper (first_line s) = true /\
  startswith (txt "000(W)") (first_line s) = false /\
  contains (txt "PRECINCT") (first_line s) = false /\
  contains (txt "DRAWING") (first_line s) = false /\
  contains (txt "PROJECT") (first_line s) = false.
Proof.
  split.
  - intros (door_code & dims & H). revert H.
    unfold first_line, parse_door_type.
    destruct (negb (truthy s)); [discriminate|].
    destruct (stripped_lines (strip s)) as [|line rest]; [discriminate|].
    cbn [hd]. destruct (has_upper line); [|discriminate]. cbn [negb].
    destruct (startswith _ line); [discriminate|].
    destruct (contains (txt "PRECINCT") line); [discriminate|].
    destruct (contains (txt "DRAWING") line); [discriminate|].
    destruct (contains (txt "PROJECT") line); [discriminate|].
    intros _. repeat split. discriminate.
  - intros (H1 & H2 & H3 & H4 & H5 & H6).
    destruct (parse_accepts s H1 H2 H3 H4 H5 H6) as (door_code & dims & H & _).
    now exists door_code, dims.
Qed.

Lemma split_ws_hd_ok (line p0 : text) (ps : list text) :
  split_ws line = p0 :: ps -> forallb not_space p0 = true.
Proof.
  intros H. pose proof (split_ws_tokens line) as Hall. rewrite H in Hall.
  inversion Hall as [|? ? [_ Hn] _]. exact Hn.
Qed.

Lemma parse_line_variant (st : text * text) (line : text) :
  variant_ok (snd st) -> variant_ok (snd (parse_line st line)).
Proof.
  destruct st as [dims variant]. cbn [snd]. intros Hv. unfold parse_line.
  destruct (has_dim line).
  - destruct (2 <=? length (split_ws line)).
    + destruct (split_ws line) as [|p0 ps] eqn:E.
      * cbn [hd]. destruct (is_variant_token []) eqn:E0; [discriminate E0|].
        now destruct (truthy dims).
      * cbn [hd tl]. destruct (is_variant_token p0) eqn:Ep.
        -- assert (Hok : variant_ok p0)
             by (right; split; [exact Ep | exact (split_ws_hd_ok _ _ _ E)]).
           now destruct (search_dim (join_sp ps)).
        -- now destruct (truthy dims).
    + now destruct (truthy dims).
  - destruct (split_ws line) as [|p0 ps] eqn:E; [exact Hv|].
    destruct (is_variant_token p0) eqn:Ep; [|exact Hv].
    destruct (truthy variant); [exact Hv|]. cbn [snd].
    right; split; [exact Ep | exact (split_ws_hd_ok _ _ _ E)].
Qed.

Lemma fold_parse_line_variant (lines : list text) (st : text * text) :
  variant_ok (snd st) -> variant_ok (snd (fold_left parse_line lines st)).
Proof.
  revert st; induction lines as [|l ls IH]; intros st H; [exact H|].
  simpl. apply IH, parse_line_variant, H.
Qed.

Lemma parse_code_shape (s door_code dims : text) :
  parse_door_type (Some s) = Some (door_code, dims) ->
  (door_code = first_token s \/
   exists variant,
     is_variant_token variant = true /\
     door_code = first_token s ++ txt "/" ++ variant) /\
  truthy (first_token s) = true /\
  forallb not_space door_code = true.
Proof.
  unfold first_token, first_line, parse_door_type.
  destruct (negb (truthy s)); [discriminate|].
  destruct (stripped_lines (strip s)) as [|line rest] eqn:E; [discriminate|].
  cbn [hd]. destruct (negb (has_upper line)); [discriminate|].
  destruct (startswith _ line); [discriminate|].
  destruct (_ || _ || _); [discriminate|].
  destruct (first_line_token _ _ _ E) as (tok & toks & tail & Hs & Ht & _).
  rewrite Hs. cbn [hd].
  pose proof (split_ws_hd_ok _ _ _ Hs) as Hn.
  pose proof (fold_parse_line_variant rest
                (embedded_dimension (tok :: toks), []) (or_introl eq_refl))
    as Hv.
  destruct (fold_left parse_line rest _) as [dm variant]. cbn [snd] in Hv.
  destruct (truthy variant) eqn:Tv; intros H; injection H as <- _.
  - destruct Hv as [-> | [Hv Hvn]]; [discriminate|].
    split; [right; now exists variant|]. split; [exact Ht|].
    rewrite forallb_app, Hn. simpl. exact Hvn.
  - split; [now left|]. now split.
Qed.

(** X5. A code returned by the parser is the first token of the first
    line, alone or followed by a slash and a variant token, and holds no
    whitespace. *)
Theorem parse_code_form (s door_code dims : text) :
  parse_door_type (Some s) = Some (door_code, dims) ->
  (door_code = first_token s \/
   exists variant,
     is_variant_token variant = true /\
     door_code = first_token s ++ txt "/" ++ variant) /\
  truthy (first_token s) = true /\
  forallb not_space door_code = true.
Proof. apply parse_code_shape. Qed.

Lemma parse_code_form_witness :
  parse_door_type (Some Samples.md_plain)
  = Some (txt "MD/1", txt "1250(W)x2240(H)") /\
  first_token Samples.md_plain = txt "MD" /\
  forallb not_space (txt "MD/1") = true.
Proof.
  assert (H : parse_door_type (Some Samples.md_plain)
              = Some (txt "MD/1", txt "1250(W)x2240(H)")) by reflexivity.
  split; [exact H|]. split; [reflexivity|].
  exact (proj2 (proj2 (parse_code_form _ _ _ H))).
Defined.

(** ** [split_multi_door_column] *)

(** The splitter without its guards and its unreachable legacy rule. *)
Lemma split_unfold (door_type_text fr d l r : text) :
  split_multi_door_column door_type_text fr d l r
  = if (2 <=? length (stripped_lines (strip door_type_text)))
       && (2 <=? base_code_count door_type_text)
    then split_main door_type_text (stripped_lines (strip door_type_text))
                    (first_token door_type_text)
                    (base_code_count door_type_text) fr d l r
    else [].
Proof.
  unfold split_multi_door_column, base_code_count, first_token, first_line.
  set (lines := stripped_lines (strip door_type_text)).
  rewrite Nat.ltb_antisym. destruct (2 <=? length lines); [|reflexivity].
  cbn [negb andb].
  destruct (split_ws (hd [] lines)) as [|base_code parts] eqn:E;
    [reflexivity|].
  cbn [hd]. rewrite Nat.ltb_antisym.
  destruct (2 <=? list_count base_code (base_code :: parts)) eqn:En;
    [|reflexivity].
  cbn [negb]. apply Nat.leb_le in En.
  destruct (list_count base_code (base_code :: parts)) as [|n]; [lia|].
  reflexivity.
Qed.

(** X6. The splitter returns as many records as the first line holds the
    base code, when the text has at least two non-empty lines and the base
    code occurs at least twice, and no record otherwise. *)
Theorem split_length (door_type_text fr d l r : text) :
  length (split_multi_door_column door_type_text fr d l r)
  = if (2 <=? length (stripped_lines (strip door_type_text)))
       && (2 <=? base_code_count door_type_text)
    then base_code_count door_type_text
    else 0.
Proof.
  rewrite split_unfold. destruct (_ && _); [|reflexivity].
  unfold split_main. now rewrite length_map, length_seq.
Qed.

Lemma match_variant_shape (s v : text) :
  match_variant s = Some v ->
  exists dg up,
    v = dg ++ up /\ truthy dg = true /\ forallb is_digit dg = true /\
    forallb is_upper up = true.
Proof.
  unfold match_variant.
  destruct (span is_digit s) as [dg r1] eqn:E1.
  destruct (span is_upper r1) as [up r2] eqn:E2.
  apply span_spec in E1 as [_ Hd]. apply span_spec in E2 as [_ Hu].
  destruct (truthy dg) eqn:Td; [|discriminate].
  assert (forall o, o = Some (dg ++ up) \/ o = None -> o = Some v ->
                    exists dg up,
                      v = dg ++ up /\ truthy dg = true /\
                      forallb is_digit dg = true /\
                      forallb is_upper up = true) as Hgen.
  { intros o [-> | ->] H; [|discriminate]. injection H as <-.
    now exists dg, up. }
  destruct r2 as [|c r2]; [apply Hgen; now left|].
  destruct (is_space c || Ascii.eqb c "("); apply Hgen; tauto.
Qed.

Lemma collect_variants_shape (num_doors : nat) (parts all_variants : list text) :
  Forall split_variant all_variants ->
  Forall split_variant (collect_variants num_doors parts all_variants).
Proof.
  revert all_variants; induction parts as [|part rest IH];
    intros av Hav; [exact Hav|].
  cbn [collect_variants]. destruct (first_is_digit part); [|now apply IH].
  destruct (match_variant (part ++ SP)) as [v|] eqn:E; [|now apply IH].
  destruct (variant_shape_ok v) eqn:Ev; [|now apply IH].
  assert (Hav' : Forall split_variant (av ++ [v])).
  { apply Forall_app. split; [exact Hav|]. constructor; [|constructor].
    destruct (match_variant_shape _ _ E) as (dg & up & H1 & H2 & H3 & H4).
    now exists dg, up. }
  destruct (num_doors <=? length (av ++ [v])); [exact Hav' | now apply IH].
Qed.

Lemma dedicated_variants_shape (num_doors : nat) (lines all_variants : list text) :
  Forall split_variant all_variants ->
  Forall split_variant (dedicated_variants num_doors lines all_variants).
Proof.
  revert all_variants; induction lines as [|line rest IH];
    intros av Hav; [exact Hav|].
  cbn [dedicated_variants]. destruct (_ && _); [|now apply IH].
  pose proof (collect_variants_shape num_doors (split_ws line) av Hav) as H.
  destruct (num_doors <=? length _); [exact H | now apply IH].
Qed.

Lemma mixed_variants_line_shape (num_doors : nat) (parts all_variants : list text) :
  Forall split_variant all_variants ->
  Forall split_variant (mixed_variants_line num_doors parts all_variants).
Proof.
  revert all_variants; induction parts as [|part rest IH];
    intros av Hav; [exact Hav|].
  cbn [mixed_variants_line]. destruct (_ && _); [|now apply IH].
  destruct (match_variant (part ++ SP)) as [v|] eqn:E; [|now apply IH].
  destruct (variant_shape_ok v && negb (list_mem v av)) eqn:Ev;
    [|now apply IH].
  apply andb_true_iff in Ev as [Ev _].
  assert (Hav' : Forall split_variant (av ++ [v])).
  { apply Forall_app. split; [exact Hav|]. constructor; [|constructor].
    destruct (match_variant_shape _ _ E) as (dg & up & H1 & H2 & H3 & H4).
    now exists dg, up. }
  destruct (num_doors <=? length (av ++ [v])); [exact Hav' | now apply IH].
Qed.

Lemma mixed_variants_shape (num_doors : nat) (lines all_variants : list text) :
  Forall split_variant all_variants ->
  Forall split_variant (mixed_variants num_doors lines all_variants).
Proof.
  unfold mixed_variants. revert all_variants.
  induction lines as [|line rest IH]; intros av Hav; [exact Hav|].
  simpl. now apply IH, mixed_variants_line_shape.
Qed.

Lemma variants_of_shape (num_doors : nat) (lines : list text) :
  Forall split_variant (variants_of num_doors lines).
Proof.
  unfold variants_of.
  pose proof (dedicated_variants_shape num_doors (tl lines) []
                (Forall_nil _)) as H.
  destruct (_ <? _); [now apply mixed_variants_shape | exact H].
Qed.

Lemma split_record_shape (door_type_text fr d l r : text) (door : DoorRecord) :
  In door (split_multi_door_column door_type_text fr d l r) ->
  (door_type door = first_token door_type_text \/
   exists v, split_variant v /\
             door_type door = first_token door_type_text ++ txt "/" ++ v) /\
  fire_rating door = fr /\ description door = d /\
  location door = l /\ remarks door = r.
Proof.
  rewrite split_unfold. destruct (_ && _); [|intros []].
  unfold split_main. intros H. apply in_map_iff in H as (i & <- & _).
  unfold make_door. cbn. split; [|now repeat split].
  set (vs := variants_of _ _).
  destruct (nth_in_or_default i vs []) as [Hin | Hnil].
  - pose proof (variants_of_shape (base_code_count door_type_text)
                  (stripped_lines (strip door_type_text))) as Hall.
    rewrite Forall_forall in Hall. specialize (Hall _ Hin).
    destruct (truthy (nth i vs [])); [right | now left].
    now exists (nth i vs []).
  - rewrite Hnil. now left.
Qed.

(** X7. Every record of the splitter carries the fire rating, description,
    location and remarks it was given. *)
Theorem split_shared_fields (door_type_text fr d l r : text)
    (door : DoorRecord) :
  In door (split_multi_door_column door_type_text fr d l r) ->
  fire_rating door = fr /\ description door = d /\
  location door = l /\ remarks door = r.
Proof. intros H. apply (split_record_shape _ _ _ _ _ _ H). Qed.

Lemma split_shared_fields_witness :
  let door := mkDoor (txt "DB/10") (txt "1000(W)x2190(H)")
                     (txt "1 HR") (txt "TIMBER") (txt "LOBBY") (txt "-") in
  In door (split_multi_door_column Samples.db_two_lines
             (txt "1 HR") (txt "TIMBER") (txt "LOBBY") (txt "-")) /\
  fire_rating door = txt "1 HR" /\ description door = txt "TIMBER" /\
  location door = txt "LOBBY" /\ remarks door = txt "-".
Proof.
  intros door.
  assert (H : In door (split_multi_door_column Samples.db_two_lines
                         (txt "1 HR") (txt "TIMBER") (txt "LOBBY") (txt "-")))
    by (right; left; reflexivity).
  split; [exact H | exact (split_shared_fields _ _ _ _ _ _ H)].
Defined.

(** X8. The door type of every record of the splitter is the base code,
    alone or followed by a slash and a variant; a variant is digits
    followed by uppercase letters and is never a number of three or more
    digits. *)
Theorem split_door_type_form (door_type_text fr d l r : text)
    (door : DoorRecord) :
  In door (split_multi_door_column door_type_text fr d l r) ->
  door_type door = first_token door_type_text \/
  exists v, split_variant v /\
            door_type door = first_token door_type_text ++ txt "/" ++ v.
Proof. intros H. apply (split_record_shape _ _ _ _ _ _ H). Qed.

Lemma split_door_type_form_witness :
  let door := mkDoor (txt "DB/10") (txt "1000(W)x2190(H)") [] [] [] [] in
  In door (split_multi_door_column Samples.db_two_lines [] [] [] []) /\
  (door_type door = first_token Samples.db_two_lines \/
   exists v, split_variant v /\
             door_type door = first_token Samples.db_two_lines
                              ++ txt "/" ++ v).
Proof.
  intros door.
  assert (H : In door (split_multi_door_column Samples.db_two_lines
                         [] [] [] []))
    by (right; left; reflexivity).
  split; [exact H | exact (split_door_type_form _ _ _ _ _ _ H)].
Defined.



(** ** [extract_doors_from_table] *)

Lemma process_column_fields
    (door_type_row fire_rating_row description_row location_row
       remarks_row : Row) (col_idx : nat) (door : DoorRecord) :
  In door (process_column door_type_row fire_rating_row description_row
                          location_row remarks_row col_idx) ->
  fire_rating door = field_at fire_rating_row col_idx /\
  description door = field_at description_row col_idx /\
  location door = field_at location_row col_idx /\
  remarks door = field_at remarks_row col_idx.
Proof.
  unfold process_column.
  destruct (nth col_idx door_type_row None) as [cell|]; [|intros []].
  destruct (_ || _); [intros []|]. destruct (_ || _); [intros []|].
  destruct (parse_door_type _) as [[door_code dims]|]; [|intros []].
  destruct (negb (truthy door_code)); [intros []|].
  destruct (has_multiple_doors _).
  - intros H. apply (split_record_shape _ _ _ _ _ _ H).
  - intros [<- | []]. now repeat split.
Qed.

Lemma extract_in (table : Table) (door : DoorRecord) :
  In door (extract_doors_from_table table) ->
  exists s col_idx,
    In s (resolve_sections table) /\
    1 <= col_idx < length (nth (door_type_row_idx s) table []) /\
    In door (process_column
               (nth (door_type_row_idx s) table [])
               (field_row table (fire_rating_row_idx s))
               (field_row table (description_row_idx s))
               (field_row table (location_row_idx s))
               (field_row table (remarks_row_idx s)) col_idx).
Proof.
  unfold extract_doors_from_table.
  destruct (length table <? 2); [intros []|].
  destruct (door_type_row_indices table); [intros []|].
  intros H. apply in_flat_map in H as (s & Hs & H).
  unfold process_section in H. apply in_flat_map in H as (col & Hc & H).
  apply in_seq in Hc. exists s, col. split; [exact Hs|]. split; [lia|exact H].
Qed.

(** X10. Every extracted record takes its fire rating, description,
    location and remarks from one column of the field rows of one section:
    the column, past column 0, of its door-type cell. *)
Theorem extracted_fields_same_column (table : Table) (door : DoorRecord) :
  In door (extract_doors_from_table table) ->
  exists s col_idx,
    In s (resolve_sections table) /\
    1 <= col_idx < length (nth (door_type_row_idx s) table []) /\
    fire_rating door
    = field_at (field_row table (fire_rating_row_idx s)) col_idx /\
    description door
    = field_at (field_row table (description_row_idx s)) col_idx /\
    location door
    = field_at (field_row table (location_row_idx s)) col_idx /\
    remarks door
    = field_at (field_row table (remarks_row_idx s)) col_idx.
Proof.
  intros H. destruct (extract_in _ _ H) as (s & col & Hs & Hc & Hd).
  exists s, col. split; [exact Hs|]. split; [exact Hc|].
  exact (process_column_fields _ _ _ _ _ _ _ Hd).
Qed.

Lemma extracted_fields_same_column_witness :
  let table := Samples.one_door_table Samples.md_plain in
  let door := mkDoor (txt "MD/1") (txt "1250(W)x2240(H)") (txt "1 HR")
                     [] [] [] in
  In door (extract_doors_from_table table) /\
  exists s col_idx,
    In s (resolve_sections table) /\
    1 <= col_idx < length (nth (door_type_row_idx s) table []) /\
    fire_rating door
    = field_at (field_row table (fire_rating_row_idx s)) col_idx /\
    description door
    = field_at (field_row table (description_row_idx s)) col_idx /\
    location door
    = field_at (field_row table (location_row_idx s)) col_idx /\
    remarks door
    = field_at (field_row table (remarks_row_idx s)) col_idx.
Proof.
  intros table door.
  assert (H : In door (extract_doors_from_table table))
    by (left; reflexivity).
  split; [exact H | exact (extracted_fields_same_column table door H)].
Defined.

Lemma field_at_normalized (row : Row) (col_idx : nat) :
  clean_text (Some (field_at row col_idx)) = field_at row col_idx.
Proof.
  unfold field_at. destruct (nth_error row col_idx) as [[s|]|];
    try reflexivity.
  destruct (truthy s); [|reflexivity].
  rewrite (clean_text_as_join s). apply clean_text_fixed.
Qed.

(** X11. The four text fields of every extracted record are normalized:
    cleaning them again changes nothing. *)
Theorem extracted_fields_normalized (table : Table) (door : DoorRecord) :
  In door (extract_doors_from_table table) ->
  clean_text (Some (fire_rating door)) = fire_rating door /\
  clean_text (Some (description door)) = description door /\
  clean_text (Some (location door)) = location door /\
  clean_text (Some (remarks door)) = remarks door.
Proof.
  intros H. destruct (extract_in _ _ H) as (s & col & _ & _ & Hd).
  destruct (process_column_fields _ _ _ _ _ _ _ Hd) as (-> & -> & -> & ->).
  repeat split; apply field_at_normalized.
Qed.

Lemma extracted_fields_normalized_witness :
  let table :=
    [ [Some (txt "DOOR TYPE"); Some Samples.md_plain];
      [Some (txt "LOCATION"); Some (txt "  LIFT   LOBBY " ++ NL ++ txt "L1")] ]
  in
  let door := mkDoor (txt "MD/1") (txt "1250(W)x2240(H)") [] []
                     (txt "LIFT LOBBY L1") [] in
  In door (extract_doors_from_table table) /\
  clean_text (Some (location door)) = location door.
Proof.
  intros table door.
  assert (H : In door (extract_doors_from_table table))
    by (left; reflexivity).
  split; [exact H|].
  exact (proj1 (proj2 (proj2 (extracted_fields_normalized table door H)))).
Defined.

(** X12. A field whose label row is missing from a section is empty in
    every record of that section. *)
Theorem missing_field_row_empty (table : Table) (s : Section)
    (door : DoorRecord) :
  In door (process_section table s) ->
  (fire_rating_row_idx s = None -> fire_rating door = []) /\
  (description_row_idx s = None -> description door = []) /\
  (location_row_idx s = None -> location door = []) /\
  (remarks_row_idx s = None -> remarks door = []).
Proof.
  unfold process_section. intros H.
  apply in_flat_map in H as (col & _ & H).
  destruct (process_column_fields _ _ _ _ _ _ _ H) as (-> & -> & -> & ->).
  assert (Hnil : forall col_idx, field_at [] col_idx = [])
    by (intros [|n]; reflexivity).
  repeat split; intros ->; apply Hnil.
Qed.

Lemma missing_field_row_empty_witness :
  let table := Samples.one_door_table Samples.md_plain in
  let s := resolve_section table 0 2 in
  let door := mkDoor (txt "MD/1") (txt "1250(W)x2240(H)") (txt "1 HR")
                     [] [] [] in
  In door (process_section table s) /\
  description_row_idx s = None /\ description door = [].
Proof.
  intros table s door.
  assert (H : In door (process_section table s)) by (left; reflexivity).
  split; [exact H|]. split; [reflexivity|].
  exact (proj1 (proj2 (missing_field_row_empty table s door H)) eq_refl).
Defined.

Lemma rows_from_none (rows : list Row) (k : nat) :
  (forall row, In row rows -> label_is "DOOR TYPE" row = false) ->
  door_type_rows_from k rows = [].
Proof.
  revert k; induction rows as [|row rows IH]; intros k H; [reflexivity|].
  simpl. rewrite (H row (or_introl eq_refl)).
  apply IH. intros r Hr. apply H. now right.
Qed.

(** X13. A table none of whose rows is labelled DOOR TYPE yields no
    record, whatever else it holds. *)
Theorem extract_no_anchor (table : Table) :
  (forall row, In row table -> label_is "DOOR TYPE" row = false) ->
  extract_doors_from_table table = [].
Proof.
  intros H. unfold extract_doors_from_table, door_type_row_indices.
  rewrite (rows_from_none table 0 H). now destruct (length table <? 2).
Qed.

Lemma extract_no_anchor_witness :
  extract_doors_from_table
    [ [Some (txt "DOOR  TYPE"); Some Samples.md_plain];
      [Some (txt "FIRE-RATING"); Some (txt "1 HR")] ] = [].
Proof.
  apply extract_no_anchor. intros row [<- | [<- | []]]; reflexivity.
Defined.

Lemma upper_not_space (c : ascii) : is_upper c = true -> not_space c = true.
Proof.
  unfold is_upper, not_space, is_space, in_range.
  intros H. apply andb_true_iff in H as [H1 H2].
  apply N.leb_le in H1, H2. apply negb_true_iff, orb_false_iff.
  split; apply andb_false_iff; right; apply N.leb_gt; lia.
Qed.

Lemma split_variant_no_space (v : text) :
  split_variant v -> truthy v = true /\ forallb not_space v = true.
Proof.
  intros (dg & up & -> & Td & Hd & Hu & _). split.
  - destruct dg; [discriminate | reflexivity].
  - rewrite forallb_app, (digits_no_space _ Hd). cbn [andb].
    induction up as [|c up IH]; [reflexivity|].
    cbn [forallb] in *. apply andb_true_iff in Hu as [Hc Hu].
    now rewrite (upper_not_space c Hc), (IH Hu).
Qed.

Lemma first_token_ok (door_type_text : text) :
  1 <= base_code_count door_type_text ->
  truthy (first_token door_type_text) = true /\
  forallb not_space (first_token door_type_text) = true.
Proof.
  unfold base_code_count, first_token.
  pose proof (split_ws_tokens (first_line door_type_text)) as Hall.
  destruct (split_ws (first_line door_type_text)) as [|tok toks];
    [unfold list_count; simpl; intros; lia|].
  intros _. inversion Hall as [|? ? H _]. exact H.
Qed.

Lemma process_column_door_type
    (door_type_row fire_rating_row description_row location_row
       remarks_row : Row) (col_idx : nat) (door : DoorRecord) :
  In door (process_column door_type_row fire_rating_row description_row
                          location_row remarks_row col_idx) ->
  truthy (door_type door) = true /\
  forallb not_space (door_type door) = true.
Proof.
  unfold process_column.
  destruct (nth col_idx door_type_row None) as [cell|]; [|intros []].
  destruct (_ || _); [intros []|]. destruct (_ || _); [intros []|].
  destruct (parse_door_type _) as [[door_code dims]|] eqn:Ep; [|intros []].
  destruct (negb (truthy door_code)); [intros []|].
  destruct (has_multiple_doors _).
  - intros H. pose proof H as H'. revert H'. rewrite split_unfold.
    destruct (_ && _) eqn:E; [|intros []]. intros _.
    apply andb_true_iff in E as [_ E]. apply Nat.leb_le in E.
    destruct (first_token_ok (merge_continuation door_type_row cell col_idx))
      as [Tt Nt]; [lia|].
    destruct (proj1 (split_record_shape _ _ _ _ _ _ H))
      as [-> | (v & Hv & ->)]; [now split|].
    destruct (split_variant_no_space v Hv) as [_ Nv].
    split.
    + destruct (first_token _); [discriminate Tt | reflexivity].
    + rewrite forallb_app, Nt. simpl. exact Nv.
  - intros [<- | []]. cbn [door_type].
    split; [exact (parse_code_truthy _ _ _ Ep)|].
    exact (proj2 (proj2 (parse_code_shape _ _ _ Ep))).
Qed.

(** X14. The door type of every extracted record is not empty and holds
    no whitespace, so that stripping it, as the validator does, changes
    nothing. *)
Theorem extracted_door_type_trimmed (table : Table) (door : DoorRecord) :
  In door (extract_doors_from_table table) ->
  truthy (door_type door) = true /\
  forallb not_space (door_type door) = true /\
  strip (door_type door) = door_type door.
Proof.
  intros H. destruct (extract_in _ _ H) as (s & col & _ & _ & Hd).
  destruct (process_column_door_type _ _ _ _ _ _ _ Hd) as [Ht Hn].
  split; [exact Ht|]. split; [exact Hn | now apply strip_no_space].
Qed.

Lemma extracted_door_type_trimmed_witness :
  let table := Samples.one_door_table Samples.db_two_lines in
  let door := mkDoor (txt "DB/10") (txt "1000(W)x2190(H)") (txt "1 HR")
                     [] [] [] in
  In door (extract_doors_from_table table) /\
  strip (door_type door) = door_type door.
Proof.
  intros table door.
  assert (H : In door (extract_doors_from_table table))
    by (right; left; reflexivity).
  split; [exact H|].
  exact (proj2 (proj2 (extracted_door_type_trimmed table door H))).
Defined.

(** ** [is_valid_door_entry] *)

Lemma spaces_no_upper (w : text) :
  forallb is_space w = true -> has_upper w = false.
Proof.
  induction w as [|c w IH]; simpl; [reflexivity|].
  intros H. apply andb_true_iff in H as [Hc Hw]. rewrite (IH Hw).
  rewrite orb_false_r. revert Hc. unfold is_space, is_upper, in_range.
  intros Hc. apply orb_true_iff in Hc. apply andb_false_iff.
  destruct Hc as [Hc|Hc]; apply andb_true_iff in Hc as [H1 H2];
    apply N.leb_le in H1, H2; left; apply N.leb_gt; lia.
Qed.

Lemma has_upper_strip_eq (s : text) : has_upper (strip s) = has_upper s.
Proof.
  destruct (strip_split s) as (a & b & Hs & Ha & Hb).
  rewrite Hs at 2. unfold has_upper. rewrite !existsb_app.
  fold (has_upper a). fold (has_upper b).
  now rewrite (spaces_no_upper a Ha), (spaces_no_upper b Hb), orb_false_r.
Qed.

Lemma contains_strip_upper (m s : text) :
  contains m (upper (strip s)) = true -> contains m (upper s) = true.
Proof.
  intros H. destruct (strip_split s) as (a & b & Hs & _ & _).
  apply contains_inv in H as (x & y & Hxy).
  rewrite Hs. unfold upper in *. rewrite !map_app, Hxy.
  replace (map to_upper a ++ (x ++ m ++ y) ++ map to_upper b)
    with ((map to_upper a ++ x) ++ m ++ (y ++ map to_upper b))
    by (now rewrite <- !app_assoc).
  apply contains_app.
Qed.

(** X15. The validator accepts a record exactly when its door type holds
    an uppercase letter, its uppercased form holds none of the metadata
    markers, and its stripped form neither starts with 000(W)x nor is as a
    whole a dimension token; the other fields play no part. *)
Theorem valid_iff (door : DoorRecord) :
  is_valid_door_entry door = true <->
  has_upper (door_type door) = true /\
  (forall m, In m invalid_patterns ->
             contains m (upper (door_type door)) = false) /\
  startswith (txt "000(W)x") (strip (door_type door)) = false /\
  fullmatch_dim (strip (door_type door)) = false.
Proof.
  unfold is_valid_door_entry.
  rewrite match_dim_line_strip, has_upper_strip_eq.
  split.
  - destruct (existsb _ invalid_patterns) eqn:Epat; [discriminate|].
    destruct (startswith _ _) eqn:Esw; [discriminate|].
    destruct (fullmatch_dim _) eqn:Ef; [discriminate|].
    destruct (has_upper _) eqn:Eup; [|discriminate].
    intros _. split; [reflexivity|]. split; [|now split].
    intros m Hm.
    destruct (contains m (upper (door_type door))) eqn:E; [|reflexivity].
    pose proof invalid_patterns_trimmed as Htr.
    rewrite forallb_forall in Htr. specialize (Htr m Hm).
    apply andb_true_iff in Htr as [Hf Hl].
    apply (contains_upper_strip m _ Hf Hl) in E.
    assert (Hex : existsb
                    (fun pattern =>
                       contains pattern (upper (strip (door_type door))))
                    invalid_patterns = true)
      by (apply existsb_exists; now exists m).
    rewrite Hex in Epat. discriminate.
  - intros (Hup & Hpat & Hsw & Hf). rewrite Hup, Hsw, Hf.
    destruct (existsb _ invalid_patterns) eqn:Epat; [|reflexivity].
    apply existsb_exists in Epat as (m & Hm & Hc).
    apply contains_strip_upper in Hc. rewrite (Hpat m Hm) in Hc.
    discriminate.
Qed.

Lemma valid_iff_witness :
  is_valid_door_entry (mkDoor (txt "MD/1") [] [] [] [] []) = true.
Proof.
  apply (proj2 (valid_iff (mkDoor (txt "MD/1") [] [] [] [] []))).
  split; [reflexivity|]. split; [|split; reflexivity].
  intros m Hm. unfold invalid_patterns in Hm. simpl in Hm.
  repeat (destruct Hm as [<- | Hm]; [reflexivity|]). destruct Hm.
Defined.

Lemma parse_returns_code_iff_witness :
  exists door_code dims,
    parse_door_type (Some Samples.md_plain) = Some (door_code, dims).
Proof.
  apply (proj2 (parse_returns_code_iff Samples.md_plain)).
  split; [discriminate|]. repeat split; reflexivity.
Defined.

(** ** The pages of a document, in [main] and in [extract_from_pdf] *)

Lemma tables_loop_acc (tables : list TableObj) (doors : list DoorRecord) :
  tables_loop tables doors = doors ++ tables_loop tables [].
Proof.
  revert doors; induction tables as [|t ts IH]; intros doors; simpl;
    [now rewrite app_nil_r|].
  destruct (extract_call t) as [table_doors|]; [|now rewrite app_nil_r].
  destruct (filter is_valid_door_entry table_doors) as [|v vs]; [apply IH|].
  rewrite (IH (doors ++ v :: vs)), (IH (v :: vs)).
  now rewrite <- app_assoc.
Qed.

Lemma app_tables_loop_eq (tables : list TableObj) (doors : list DoorRecord) :
  app_tables_loop tables doors = tables_loop tables doors.
Proof.
  revert doors; induction tables as [|t ts IH]; intros doors; simpl;
    [reflexivity|].
  destruct (extract_call t) as [table_doors|]; [|reflexivity].
  rewrite IH.
  destruct (filter is_valid_door_entry table_doors); [|reflexivity].
  now rewrite app_nil_r.
Qed.

Lemma app_pages_loop_eq (pages : list Page) (all_doors : list DoorRecord) :
  app_pages_loop pages all_doors = all_doors ++ process_pages pages.
Proof.
  unfold process_pages.
  revert all_doors; induction pages as [|page rest IH]; intros all_doors;
    cbn [app_pages_loop flat_map]; [now rewrite app_nil_r|].
  destruct page as [[|t ts]|]; cbn [process_page app]; try apply IH.
  rewrite IH, app_tables_loop_eq, (tables_loop_acc (t :: ts) all_doors).
  now rewrite <- app_assoc.
Qed.

(** X16. When no call raises, the records of a document are the valid
    records of its tables, page after page and table after table. *)
Theorem process_pages_no_raise (pages : list (list Table)) :
  process_pages (map (fun tables => Returns (map Grid tables)) pages)
  = flat_map (flat_map valid_doors_of) pages.
Proof.
  unfold process_pages. induction pages as [|tables rest IH];
    [reflexivity|].
  cbn [map flat_map]. rewrite IH. f_equal.
  rewrite <- (app_nil_r (map Grid tables)).
  now rewrite process_page_grids.
Qed.

(** X17. The user interface and the command line extract the same records
    in the same order: [extract_from_pdf] is the label clean-up of the
    records of [process_page], and [main] adds the dimension back-fill. *)
Theorem app_and_main_agree (pages : list Page) :
  app_pages_loop pages [] = process_pages pages /\
  extract_from_pdf pages = map strip_labels (process_pages pages) /\
  main_doors pages = map backfill_dimensions (extract_from_pdf pages).
Proof.
  assert (H : app_pages_loop pages [] = process_pages pages)
    by apply (app_pages_loop_eq pages []).
  split; [exact H|]. unfold extract_from_pdf, main_doors. rewrite H.
  split; [reflexivity|]. rewrite map_map. reflexivity.
Qed.

Lemma search_dim_shape (s m : text) : search_dim s = Some m -> dim_shape m.
Proof.
  induction s as [|c s IH]; cbn [search_dim].
  - destruct (match_dim []) as [[m' r]|] eqn:E; [|discriminate].
    intros H; injection H as <-. exact (match_dim_shape _ _ _ E).
  - destruct (match_dim (c :: s)) as [[m' r]|] eqn:E; [|exact IH].
    intros H; injection H as <-. exact (match_dim_shape _ _ _ E).
Qed.

(** X18. The post-processing of [main] never changes the door type of a
    record, hence not the verdict of the validator either; it keeps
    dimensions that are not empty, and empty dimensions stay empty or
    become, as a whole, one dimension token. *)
Theorem post_process_keeps (door : DoorRecord) :
  door_type (post_process door) = door_type door /\
  is_valid_door_entry (post_process door) = is_valid_door_entry door /\
  (truthy (dimensions door) = true ->
   dimensions (post_process door) = dimensions door) /\
  (dimensions door = [] ->
   dimensions (post_process door) = [] \/
   fullmatch_dim (dimensions (post_process door)) = true).
Proof.
  destruct door as [dt dm fr d l r].
  unfold post_process, backfill_dimensions, strip_labels, is_valid_door_entry.
  cbn [door_type dimensions fire_rating description location remarks].
  destruct dm as [|c dm]; cbn [truthy negb].
  - destruct (search_dim dt) as [m|] eqn:E; cbn [door_type dimensions];
      (split; [reflexivity|]); (split; [reflexivity|]);
      (split; [discriminate|]); intros _.
    + right. exact (dim_shape_fullmatch m (search_dim_shape _ _ E)).
    + now left.
  - cbn [door_type dimensions].
    split; [reflexivity|]. split; [reflexivity|].
    split; [reflexivity | discriminate].
Qed.

Lemma post_process_keeps_witness :
  let door := mkDoor (txt "GD2100(W)x2190(H)") [] (txt "FIRE-RATING 1 HR")
                     [] [] [] in
  post_process door
  = mkDoor (txt "GD2100(W)x2190(H)") (txt "2100(W)x2190(H)") (txt "1 HR")
           [] [] [] /\
  (dimensions (post_process door) = [] \/
   fullmatch_dim (dimensions (post_process door)) = true).
Proof.
  intros door. split; [reflexivity|].
  exact (proj2 (proj2 (proj2 (post_process_keeps door))) eq_refl).
Defined.

Lemma remove_absent (old s : text) :
  contains old s = false -> remove_from 0 old s = s.
Proof.
  induction s as [|c s IH]; [reflexivity|].
  cbn [contains remove_from]. intros H.
  apply orb_false_iff in H as [H1 H2]. rewrite H1. now rewrite (IH H2).
Qed.

Lemma drop_while_idem (p : ascii -> bool) (l : text) :
  drop_while p (drop_while p l) = drop_while p l.
Proof.
  induction l as [|c l IH]; [reflexivity|]. cbn [drop_while].
  destruct (p c) eqn:E; [exact IH|]. cbn [drop_while]. now rewrite E.
Qed.

Lemma strip_idem (s : text) : strip (strip s) = strip s.
Proof.
  assert (Hl : lstrip (strip s) = strip s).
  { destruct (strip s) as [|c r] eqn:E; [reflexivity|].
    unfold lstrip. cbn [drop_while]. now rewrite (strip_first s r c E). }
  unfold strip at 1. rewrite Hl. unfold strip, rstrip.
  now rewrite rev_involutive, drop_while_idem.
Qed.

Lemma normalized_stripped (f : text) :
  clean_text (Some f) = f -> strip f = f.
Proof.
  unfold clean_text. destruct (truthy f); [|now intros <-].
  intros H. rewrite <- H at 1. rewrite strip_idem. exact H.
Qed.

(** X19. The label clean-up leaves an extracted record as it is when none
    of its four fields holds the label of its row. *)
Theorem strip_labels_noop (table : Table) (door : DoorRecord) :
  In door (extract_doors_from_table table) ->
  contains (txt "FIRE-RATING") (fire_rating door) = false ->
  contains (txt "DESCRIPTION") (description door) = false ->
  contains (txt "LOCATION") (location door) = false ->
  contains (txt "REMARKS") (remarks door) = false ->
  strip_labels door = door.
Proof.
  intros H H1 H2 H3 H4.
  destruct (extract_in _ _ H) as (s & col & _ & _ & Hd).
  destruct (process_column_fields _ _ _ _ _ _ _ Hd) as (E1 & E2 & E3 & E4).
  destruct door as [dt dm fr d l r].
  cbn [door_type dimensions fire_rating description location remarks] in *.
  unfold strip_labels, strip_label.
  cbn [door_type dimensions fire_rating description location remarks].
  rewrite (remove_absent _ _ H1), (remove_absent _ _ H2),
    (remove_absent _ _ H3), (remove_absent _ _ H4).
  rewrite (normalized_stripped fr), (normalized_stripped d),
    (normalized_stripped l), (normalized_stripped r);
    [reflexivity | ..]; subst; apply field_at_normalized.
Qed.

Lemma strip_labels_noop_witness :
  let table := Samples.one_door_table Samples.md_plain in
  let door := mkDoor (txt "MD/1") (txt "1250(W)x2240(H)") (txt "1 HR")
                     [] [] [] in
  In door (extract_doors_from_table table) /\ strip_labels door = door.
Proof.
  intros table door.
  assert (H : In door (extract_doors_from_table table))
    by (left; reflexivity).
  split; [exact H|].
  apply (strip_labels_noop table door H); reflexivity.
Defined.

(** ** The summary of [main] *)

Lemma dict_get_set (k dt : text) (v d : nat) (counts : list (text * nat)) :
  dict_get k (dict_set dt v counts) d
  = if text_eqb dt k then v else dict_get k counts d.
Proof.
  induction counts as [|[k' n] rest IH]; cbn [dict_set dict_get].
  - destruct (text_eqb dt k); reflexivity.
  - destruct (text_eqb k' dt) eqn:E1; cbn [dict_get].
    + apply text_eqb_eq in E1. subst k'.
      destruct (text_eqb dt k); reflexivity.
    + destruct (text_eqb k' k) eqn:E2; [|exact IH].
      apply text_eqb_eq in E2. subst k'.
      destruct (text_eqb dt k) eqn:E3; [|reflexivity].
      apply text_eqb_eq in E3. subst dt.
      rewrite text_eqb_refl in E1. discriminate.
Qed.

Lemma dict_set_sum (dt : text) (counts : list (text * nat)) :
  list_sum (map snd (dict_set dt (dict_get dt counts 0 + 1) counts))
  = list_sum (map snd counts) + 1.
Proof.
  assert (H : forall v,
             list_sum (map snd (dict_set dt v counts)) + dict_get dt counts 0
             = list_sum (map snd counts) + v).
  { intros v. induction counts as [|[k n] rest IH]; cbn [dict_set dict_get];
      [simpl; lia|].
    destruct (text_eqb k dt); simpl in *; lia. }
  specialize (H (dict_get dt counts 0 + 1)). lia.
Qed.

Lemma dict_set_keys (dt : text) (v : nat) (counts : list (text * nat)) :
  NoDup (map fst counts) -> NoDup (map fst (dict_set dt v counts)) /\
  forall k, In k (map fst (dict_set dt v counts)) <->
            k = dt \/ In k (map fst counts).
Proof.
  induction counts as [|[k' n] rest IH]; cbn [dict_set map fst].
  - intros _. split; [repeat constructor; intros []|].
    intros k. simpl. intuition congruence.
  - intros H. inversion H as [|? ? Hnin Hnd]; subst.
    destruct (text_eqb k' dt) eqn:E; cbn [map fst].
    + apply text_eqb_eq in E. subst k'. split; [exact H|].
      intros k. simpl. intuition congruence.
    + destruct (IH Hnd) as [IH1 IH2]. split.
      * constructor; [|exact IH1]. intros Hin. apply IH2 in Hin.
        destruct Hin as [-> | Hin]; [|contradiction].
        rewrite text_eqb_refl in E. discriminate.
      * intros k. simpl. rewrite IH2. tauto.
Qed.

Lemma door_type_counts_fold (doors : list DoorRecord)
    (counts : list (text * nat)) (dt : text) :
  NoDup (map fst counts) ->
  dict_get dt (fold_left dict_incr doors counts) 0
  = dict_get dt counts 0
    + length (filter (fun d => text_eqb (door_type d) dt) doors) /\
  list_sum (map snd (fold_left dict_incr doors counts))
  = list_sum (map snd counts) + length doors /\
  NoDup (map fst (fold_left dict_incr doors counts)).
Proof.
  revert counts; induction doors as [|door rest IH]; intros counts Hnd.
  - simpl. repeat split; [lia | lia | exact Hnd].
  - cbn [fold_left filter].
    assert (Hnd' : NoDup (map fst (dict_incr counts door)))
      by (apply dict_set_keys, Hnd).
    destruct (IH _ Hnd') as (I1 & I2 & I3).
    rewrite I1, I2. unfold dict_incr at 1 2.
    rewrite dict_get_set, dict_set_sum.
    split; [|split; [cbn [length]; lia | exact I3]].
    destruct (text_eqb (door_type door) dt) eqn:E; cbn [length]; [|lia].
    apply text_eqb_eq in E. rewrite E. lia.
Qed.

(** X20. In the summary of [main] the count kept for a door type is the
    number of records with that door type, the counts add up to the
    number of records, and no door type is listed twice. *)
Theorem door_type_counts_spec (all_doors : list DoorRecord) :
  (forall dt,
     dict_get dt (door_type_counts all_doors) 0
     = length (filter (fun d => text_eqb (door_type d) dt) all_doors)) /\
  list_sum (map snd (door_type_counts all_doors)) = length all_doors /\
  NoDup (map fst (door_type_counts all_doors)).
Proof.
  unfold door_type_counts. split; [|split].
  - intros dt.
    now rewrite (proj1 (door_type_counts_fold all_doors [] dt (NoDup_nil _))).
  - exact (proj1 (proj2 (door_type_counts_fold all_doors [] []
                           (NoDup_nil _)))).
  - exact (proj2 (proj2 (door_type_counts_fold all_doors [] []
                           (NoDup_nil _)))).
Qed.

(** ** The dimensions of every extracted record *)

Lemma match_dim_build (m post : text) :
  dim_shape m -> match_dim (m ++ post) = Some (m, post).
Proof.
  intros (w & h & -> & Tw & Hw & Th & Hh). unfold match_dim.
  rewrite <- !app_assoc.
  rewrite (span_app_stop is_digit w _ Hw) by reflexivity.
  rewrite Tw, lit_app.
  rewrite (span_app_stop is_digit h _ Hh) by reflexivity.
  rewrite Th, lit_app. reflexivity.
Qed.

Lemma has_dim_cons (c : ascii) (s : text) :
  has_dim s = true -> has_dim (c :: s) = true.
Proof.
  unfold has_dim. cbn [search_dim].
  destruct (match_dim (c :: s)) as [[m r]|]; [reflexivity|]. tauto.
Qed.

(** A text holds a dimension exactly when it has a substring of the
    dimension shape. *)
Lemma has_dim_iff (s : text) :
  has_dim s = true <-> exists m, dim_shape m /\ has_sub m s.
Proof.
  split.
  - unfold has_dim. induction s as [|c s IH]; cbn [search_dim].
    + destruct (match_dim []) as [[m r]|] eqn:E; [|discriminate].
      intros _. exists m. split; [exact (match_dim_shape _ _ _ E)|].
      apply match_dim_spec in E as [E _]. now exists [], r.
    + destruct (match_dim (c :: s)) as [[m r]|] eqn:E.
      * intros _. exists m. split; [exact (match_dim_shape _ _ _ E)|].
        apply match_dim_spec in E as [E _]. now exists [], r.
      * intros H. destruct (IH H) as (m & Hm & a & b & ->).
        exists m. split; [exact Hm|]. now exists (c :: a), b.
  - intros (m & Hm & a & b & ->). induction a as [|c a IH].
    + unfold has_dim. cbn [app].
      destruct (m ++ b) eqn:E; cbn [search_dim]; rewrite <- E;
        now rewrite (match_dim_build m b Hm).
    + now apply has_dim_cons.
Qed.

Lemma has_sub_app (m t x y : text) : has_sub m t -> has_sub m (x ++ t ++ y).
Proof.
  intros (a & b & ->). exists (x ++ a), (b ++ y).
  now rewrite <- !app_assoc.
Qed.

Lemma has_dim_app (t x y : text) :
  has_dim t = true -> has_dim (x ++ t ++ y) = true.
Proof.
  intros H. apply has_dim_iff in H as (m & Hm & Hs).
  apply has_dim_iff. exists m. split; [exact Hm | now apply has_sub_app].
Qed.

(** The first token is the longest prefix without whitespace. *)
Lemma split_ws_first_max (r : text) (c : ascii) :
  is_space c = false ->
  exists t ts rest,
    split_ws (c :: r) = (c :: t) :: ts /\ c :: r = (c :: t) ++ rest /\
    match rest with [] => True | x :: _ => is_space x = true end.
Proof.
  revert c; induction r as [|d r IH]; intros c Hc.
  - exists [], [], []. simpl. now rewrite Hc.
  - rewrite split_ws_cons, Hc. destruct (is_space d) eqn:Hd.
    + exists [], (split_ws (d :: r)), (d :: r). now repeat split.
    + destruct (IH d Hd) as (t & ts & rest & Hsplit & Hrest & Hsp).
      rewrite Hsplit. exists (d :: t), ts, rest.
      split; [reflexivity|]. split; [|exact Hsp].
      simpl. f_equal. exact Hrest.
Qed.

Lemma prefix_max (m t rest post : text) :
  forallb not_space m = true ->
  match rest with [] => True | x :: _ => is_space x = true end ->
  t ++ rest = m ++ post -> exists b, t = m ++ b.
Proof.
  revert t; induction m as [|x m IH]; intros t Hm Hr E; [now exists t|].
  cbn [forallb] in Hm. apply andb_true_iff in Hm as [Hx Hm].
  unfold not_space in Hx. apply negb_true_iff in Hx.
  destruct t as [|y t].
  - cbn [app] in E. subst rest. cbn [app] in Hr. congruence.
  - cbn [app] in E. injection E as -> E.
    destruct (IH t Hm Hr E) as [b ->]. now exists b.
Qed.

(** A substring without whitespace lies within one token. *)
Lemma token_with_sub (line pre m post : text) :
  truthy m = true -> forallb not_space m = true ->
  line = pre ++ m ++ post ->
  exists t, In t (split_ws line) /\ has_sub m t.
Proof.
  intros Tm Hm. revert line; induction pre as [|p pre IH]; intros line ->.
  - destruct m as [|c m']; [discriminate|].
    assert (Hc : is_space c = false).
    { cbn [forallb] in Hm. apply andb_true_iff in Hm as [Hc _].
      unfold not_space in Hc. now apply negb_true_iff in Hc. }
    cbn [app].
    destruct (split_ws_first_max (m' ++ post) c Hc)
      as (t & ts & rest & Hs & Hr & Hsp).
    rewrite Hs. exists (c :: t). split; [now left|].
    destruct (prefix_max (c :: m') (c :: t) rest post Hm Hsp) as [b Hb].
    { now rewrite <- Hr. }
    exists [], b. exact Hb.
  - destruct (IH _ eq_refl) as (t & Hin & Hsub).
    cbn [app]. rewrite split_ws_cons.
    destruct (is_space p); [now exists t|].
    destruct (pre ++ m ++ post) as [|d s'] eqn:E; [destruct Hin|].
    destruct (is_space d); [exists t; split; [now right | exact Hsub]|].
    destruct (split_ws (d :: s')) as [|t0 ts]; [destruct Hin|].
    destruct Hin as [<- | Hin].
    + exists (p :: t0). split; [now left|].
      destruct Hsub as (a & b & ->). now exists (p :: a), b.
    + exists t. split; [now right | exact Hsub].
Qed.

Lemma has_dim_token (line : text) :
  has_dim line = true -> exists t, In t (split_ws line) /\ has_dim t = true.
Proof.
  intros H. apply has_dim_iff in H as (m & Hm & a & b & ->).
  assert (Hf : fullmatch_dim m = true) by now apply dim_shape_fullmatch.
  assert (Hn : forallb not_space m = true).
  { unfold fullmatch_dim in Hf.
    destruct (match_dim m) as [[m' r]|] eqn:E; [|discriminate].
    destruct r; [|discriminate].
    apply match_dim_spec in E as [E Hn]. rewrite app_nil_r in E.
    now subst m'. }
  destruct (token_with_sub _ a m b (fullmatch_dim_truthy _ Hf) Hn eq_refl)
    as (t & Hin & Hsub).
  exists t. split; [exact Hin|]. apply has_dim_iff. now exists m.
Qed.

Lemma join_sp_in (t : text) (ps : list text) :
  In t ps -> exists a b, join_sp ps = a ++ t ++ b.
Proof.
  induction ps as [|p ps IH]; [intros []|].
  intros [-> | Hin].
  - destruct ps as [|p2 ps].
    + exists [], []. simpl. now rewrite app_nil_r.
    + exists [], (SP ++ join_sp (p2 :: ps)). reflexivity.
  - destruct (IH Hin) as (a & b & E). destruct ps as [|p2 ps];
      [destruct Hin|].
    change (join_sp (p :: p2 :: ps)) with (p ++ SP ++ join_sp (p2 :: ps)).
    rewrite E. exists (p ++ SP ++ a), b. now rewrite <- !app_assoc.
Qed.

Lemma paren_in_dim (m : text) : dim_shape m -> In "("%char m.
Proof.
  intros (w & h & -> & _). apply in_or_app. right. now left.
Qed.

(** A variant token holds no dimension. *)
Lemma variant_token_no_dim (t : text) :
  is_variant_token t = true -> has_dim t = false.
Proof.
  intros Hv. destruct (has_dim t) eqn:E; [|reflexivity].
  apply has_dim_iff in E as (m & Hm & a & b & ->).
  assert (Hp : In "("%char (a ++ m ++ b))
    by (apply in_or_app; right; apply in_or_app; left;
        now apply paren_in_dim).
  unfold is_variant_token in Hv. apply orb_true_iff in Hv as [Hv | Hv].
  - unfold isdigit in Hv. apply andb_true_iff in Hv as [_ Hv].
    rewrite forallb_forall in Hv. specialize (Hv _ Hp). discriminate.
  - unfold match_digits_letters in Hv.
    destruct (span is_digit (a ++ m ++ b)) as [dg r1] eqn:E1.
    destruct (span is_upper r1) as [up r2] eqn:E2.
    apply span_spec in E1 as [E1 Hd]. apply span_spec in E2 as [-> Hu].
    apply andb_true_iff in Hv as [_ Hend].
    rewrite E1 in Hp. apply in_app_or in Hp as [Hp | Hp].
    + rewrite forallb_forall in Hd. specialize (Hd _ Hp). discriminate.
    + apply in_app_or in Hp as [Hp | Hp].
      * rewrite forallb_forall in Hu. specialize (Hu _ Hp). discriminate.
      * destruct r2 as [|x [|y r2]]; [destruct Hp | | discriminate].
        destruct Hp as [-> | []]. discriminate Hend.
Qed.

Lemma embedded_dimension_ok (code_parts : list text) :
  dims_ok (embedded_dimension code_parts).
Proof.
  induction code_parts as [|part rest IH]; [now left|].
  cbn [embedded_dimension]. destruct (has_dim part) eqn:E; [now right|].
  exact IH.
Qed.

Lemma search_dim_has_dim (s m : text) :
  search_dim s = Some m -> has_dim m = true.
Proof.
  intros H. apply has_dim_iff. exists m.
  split; [exact (search_dim_shape _ _ H)|].
  exists [], []. now rewrite app_nil_r.
Qed.

Lemma parse_line_dims (st : text * text) (line : text) :
  dims_ok (fst st) -> dims_ok (fst (parse_line st line)).
Proof.
  destruct st as [dims variant]. cbn [fst]. intros Hd. unfold parse_line.
  assert (Hkeep : dims_ok (fst (if truthy dims then (dims, variant)
                                else (line, variant)))
                  \/ has_dim line = false).
  { destruct (has_dim line) eqn:E; [|now right]. left.
    destruct (truthy dims); [exact Hd | now right]. }
  destruct (has_dim line) eqn:El.
  - destruct Hkeep as [Hkeep | Hkeep]; [|discriminate].
    destruct (2 <=? length (split_ws line)); [|exact Hkeep].
    destruct (split_ws line) as [|p0 ps] eqn:Es.
    + cbn [hd]. destruct (is_variant_token []) eqn:E0; [discriminate E0|].
      exact Hkeep.
    + cbn [hd tl]. destruct (is_variant_token p0) eqn:Ep; [|exact Hkeep].
      destruct (search_dim (join_sp ps)) as [m|] eqn:Em; cbn [fst].
      * right. exact (search_dim_has_dim _ _ Em).
      * right. destruct (has_dim_token line El) as (t & Hin & Ht).
        rewrite Es in Hin. destruct Hin as [<- | Hin].
        -- rewrite (variant_token_no_dim _ Ep) in Ht. discriminate.
        -- destruct (join_sp_in t ps Hin) as (a & b & ->).
           now apply has_dim_app.
  - destruct (split_ws line) as [|p0 ps]; [exact Hd|].
    destruct (is_variant_token p0); [|exact Hd].
    now destruct (truthy variant).
Qed.

Lemma fold_parse_line_dims (lines : list text) (st : text * text) :
  dims_ok (fst st) -> dims_ok (fst (fold_left parse_line lines st)).
Proof.
  revert st; induction lines as [|l ls IH]; intros st H; [exact H|].
  simpl. apply IH, parse_line_dims, H.
Qed.

Lemma parse_dims_ok (c : Cell) (door_code dims : text) :
  parse_door_type c = Some (door_code, dims) -> dims_ok dims.
Proof.
  unfold parse_door_type. destruct c as [s|]; [|discriminate].
  destruct (negb (truthy s)); [discriminate|].
  destruct (stripped_lines (strip s)) as [|line rest]; [discriminate|].
  destruct (negb (has_upper line)); [discriminate|].
  destruct (startswith _ line); [discriminate|].
  destruct (_ || _ || _); [discriminate|].
  destruct (split_ws line) as [|clean_code toks]; [discriminate|].
  pose proof (fold_parse_line_dims rest
                (embedded_dimension (clean_code :: toks), [])
                (embedded_dimension_ok _)) as H.
  destruct (fold_left parse_line rest _) as [dm variant]. cbn [fst] in H.
  destruct (truthy variant); intros E; injection E as _ <-; exact H.
Qed.

Lemma process_column_dims
    (door_type_row fire_rating_row description_row location_row
       remarks_row : Row) (col_idx : nat) (door : DoorRecord) :
  In door (process_column door_type_row fire_rating_row description_row
                          location_row remarks_row col_idx) ->
  dims_ok (dimensions door).
Proof.
  unfold process_column.
  destruct (nth col_idx door_type_row None) as [cell|]; [|intros []].
  destruct (_ || _); [intros []|]. destruct (_ || _); [intros []|].
  destruct (parse_door_type _) as [[door_code dims]|] eqn:Ep; [|intros []].
  destruct (negb (truthy door_code)); [intros []|].
  destruct (has_multiple_doors _).
  - intros Hin.
    destruct (split_dimensions_shape _ _ _ _ _ _ Hin)
      as [E | [Hs | (c & dim & _ & Hs & _ & E)]]; [now left | |].
    + right. apply has_dim_iff. exists (dimensions door).
      split; [exact Hs|]. exists [], []. now rewrite app_nil_r.
    + right. rewrite E. apply has_dim_cons, has_dim_iff. exists dim.
      split; [exact Hs|]. exists [], []. now rewrite app_nil_r.
  - intros [<- | []]. exact (parse_dims_ok _ _ _ Ep).
Qed.

(** X21. The dimensions of every extracted record are empty or hold a
    dimension token [<digits>(W)x<digits>(H)], on the single-door path as
    on the multi-door path. *)
Theorem extracted_dimensions_hold_dim (table : Table) (door : DoorRecord) :
  In door (extract_doors_from_table table) ->
  dimensions door = [] \/ has_dim (dimensions door) = true.
Proof.
  intros H. destruct (extract_in _ _ H) as (s & col & _ & _ & Hd).
  exact (process_column_dims _ _ _ _ _ _ _ Hd).
Qed.

Lemma extracted_dimensions_hold_dim_witness :
  let table := Samples.one_door_table Samples.md_clear in
  let door := mkDoor (txt "MD/1") (txt "1250(W)x2240(H) CLEAR") (txt "1 HR")
                     [] [] [] in
  In door (extract_doors_from_table table) /\
  (dimensions door = [] \/ has_dim (dimensions door) = true).
Proof.
  intros table door.
  assert (H : In door (extract_doors_from_table table))
    by (left; reflexivity).
  split; [exact H | exact (extracted_dimensions_hold_dim table door H)].
Defined.

(** ** The sections of any table *)

Lemma rows_from_chain (rows : list Row) (k : nat) :
  chain (k + length rows) (door_type_rows_from k rows).
Proof.
  revert k; induction rows as [|row rows IH]; intros k; [exact I|].
  cbn [door_type_rows_from length].
  replace (k + S (length rows)) with (S k + length rows) by lia.
  destruct (label_is "DOOR TYPE" row); [|apply IH].
  cbn [chain]. split; [lia|]. split; [|apply IH].
  destruct (door_type_rows_from (S k) rows) as [|b rest] eqn:E; [exact I|].
  assert (Hin : In b (door_type_rows_from (S k) rows))
    by (rewrite E; now left).
  apply rows_from_sound in Hin. lia.
Qed.

Lemma sections_from_in (table : Table) (indices : list nat) (s : Section) :
  chain (length table) indices ->
  In s (sections_from table indices) ->
  exists start stop,
    In start indices /\ start < stop <= length table /\
    s = resolve_section table start stop.
Proof.
  induction indices as [|a rest IH]; [intros _ []|].
  cbn [chain sections_from]. intros (Ha & Hnext & Hc) [<- | Hin].
  - destruct rest as [|b rest'].
    + exists a, (length table). split; [now left|]. split; [lia|reflexivity].
    + exists a, b. split; [now left|]. split; [|reflexivity].
      cbn [chain] in Hc. lia.
  - destruct (IH Hc Hin) as (start & stop & H1 & H2 & H3).
    exists start, stop. split; [now right|]. now split.
Qed.

Lemma scan_labels_labels (table : Table) (idxs : list nat) (s : Section) :
  labels_ok table s -> labels_ok table (scan_labels table idxs s).
Proof.
  revert s; induction idxs as [|i idxs IH]; intros s Hs; [exact Hs|].
  destruct Hs as (H1 & H2 & H3 & H4). cbn [scan_labels].
  destruct (label_is "FIRE-RATING" (nth i table [])
            || label_is "FIRE RATING" (nth i table [])) eqn:Ef.
  { apply IH. destruct s. unfold labels_ok, set_fire in *. cbn in *.
    repeat split; try assumption.
    intros j Hj. injection Hj as <-. now apply orb_true_iff in Ef. }
  destruct (label_is "DESCRIPTION" (nth i table [])) eqn:Ed.
  { apply IH. destruct s. unfold labels_ok, set_description in *. cbn in *.
    repeat split; try assumption. intros j Hj. now injection Hj as <-. }
  destruct (label_is "LOCATION" (nth i table [])) eqn:El.
  { apply IH. destruct s. unfold labels_ok, set_location in *. cbn in *.
    repeat split; try assumption. intros j Hj. now injection Hj as <-. }
  destruct (label_is "REMARKS" (nth i table [])) eqn:Er.
  { apply IH. destruct s. unfold labels_ok, set_remarks in *. cbn in *.
    repeat split; try assumption. intros j Hj. now injection Hj as <-. }
  destruct (label_is "ELEVATION" (nth i table [])).
  { destruct s. unfold labels_ok, set_end in *. cbn in *. now repeat split. }
  apply IH. now repeat split.
Qed.

(** X22. In any table, each section begins at a row labelled DOOR TYPE,
    ends within the table, records field rows only between its anchor and
    its end, and every recorded field row carries the label it was
    recorded for; there is one section for each row labelled DOOR TYPE. *)
Theorem sections_well_formed (table : Table) :
  map door_type_row_idx (resolve_sections table)
  = door_type_row_indices table /\
  forall s, In s (resolve_sections table) ->
    label_is "DOOR TYPE" (nth (door_type_row_idx s) table []) = true /\
    door_type_row_idx s < length table /\
    section_end s <= length table /\
    fields_in (door_type_row_idx s) (section_end s) s /\
    labels_ok table s.
Proof.
  split.
  - unfold resolve_sections.
    pose proof (rows_from_chain table 0) as Hc.
    fold (door_type_row_indices table) in Hc. cbn [Nat.add] in Hc.
    induction (door_type_row_indices table) as [|a rest IH];
      [reflexivity|].
    cbn [sections_from map]. destruct Hc as (Ha & Hn & Hc).
    rewrite (IH Hc). f_equal.
    assert (Hle : a <= match rest with b :: _ => b | [] => length table end)
      by (destruct rest; lia).
    exact (proj1 (resolve_section_spec table a _ Hle)).
  - intros s Hs. unfold resolve_sections in Hs.
    destruct (sections_from_in table _ s (rows_from_chain table 0) Hs)
      as (start & stop & Hin & Hb & ->).
    apply door_type_row_indices_spec in Hin as [Hlt Hlab].
    destruct (resolve_section_spec table start stop) as (Hd & He & Hf & _);
      [lia|].
    rewrite Hd. split; [exact Hlab|]. split; [exact Hlt|].
    split; [lia|]. split; [exact Hf|].
    unfold resolve_section. apply scan_labels_labels.
    repeat split; intros i Hi; discriminate.
Qed.

Lemma sections_well_formed_witness :
  let s := mkSection 0 2 (Some 1) None None None in
  In s (resolve_sections Samples.two_section_table) /\
  fields_in (door_type_row_idx s) (section_end s) s /\
  labels_ok Samples.two_section_table s.
Proof.
  intros s.
  assert (Hs : In s (resolve_sections Samples.two_section_table))
    by (left; reflexivity).
  destruct (proj2 (sections_well_formed Samples.two_section_table) s Hs)
    as (_ & _ & _ & Hf & Hl).
  split; [exact Hs|]. now split.
Defined.

(** ** The records written by [main] *)

Lemma tables_loop_in (tables : list TableObj) (doors : list DoorRecord)
    (door : DoorRecord) :
  In door (tables_loop tables doors) ->
  In door doors \/
  exists table, In (Grid table) tables /\ In door (valid_doors_of table).
Proof.
  revert doors; induction tables as [|t ts IH]; intros doors;
    cbn [tables_loop]; [now left|].
  destruct t as [table|]; cbn [extract_call]; [|now left].
  fold (valid_doors_of table).
  destruct (valid_doors_of table) as [|v vs] eqn:E; intros H.
  - destruct (IH _ H) as [Hd | (tb & Ht & Hd)]; [now left|].
    right. exists tb. split; [now right | exact Hd].
  - destruct (IH _ H) as [Hd | (tb & Ht & Hd)].
    + apply in_app_or in Hd as [Hd | Hd]; [now left|].
      right. exists table. split; [now left | now rewrite E].
    + right. exists tb. split; [now right | exact Hd].
Qed.

Lemma process_pages_in (pages : list Page) (door : DoorRecord) :
  In door (process_pages pages) ->
  exists table,
    In door (extract_doors_from_table table) /\
    is_valid_door_entry door = true.
Proof.
  unfold process_pages. intros H. apply in_flat_map in H as (pg & _ & H).
  destruct pg as [[|t ts]|]; cbn [process_page] in H; try destruct H.
  apply tables_loop_in in H as [[] | (table & _ & H)].
  unfold valid_doors_of in H. apply filter_In in H as [H1 H2].
  now exists table.
Qed.

Lemma strip_label_stripped (label : string) (field : text) :
  strip (strip_label label field) = strip_label label field.
Proof. unfold strip_label. apply strip_idem. Qed.

(** X23. Every record that [main] writes has a door type accepted by the
    validator; its dimensions are empty or hold a dimension token, and
    they are empty only when the door type holds no dimension token
    either; its four text fields have no whitespace at either end. *)
Theorem main_doors_invariant (pages : list Page) (door : DoorRecord) :
  In door (main_doors pages) ->
  is_valid_door_entry door = true /\
  (dimensions door = [] \/ has_dim (dimensions door) = true) /\
  (dimensions door = [] -> has_dim (door_type door) = false) /\
  strip (fire_rating door) = fire_rating door /\
  strip (description door) = description door /\
  strip (location door) = location door /\
  strip (remarks door) = remarks door.
Proof.
  unfold main_doors. intros H. apply in_map_iff in H as (d0 & <- & H).
  destruct (process_pages_in _ _ H) as (table & Hex & Hv).
  destruct (extract_in _ _ Hex) as (s & col & _ & _ & Hc).
  pose proof (process_column_dims _ _ _ _ _ _ _ Hc) as Hd.
  destruct d0 as [dt dm fr d l r].
  unfold post_process, backfill_dimensions, strip_labels,
    is_valid_door_entry in *.
  cbn [door_type dimensions fire_rating description location remarks] in *.
  destruct dm as [|c dm]; cbn [truthy negb].
  - destruct (search_dim dt) as [m|] eqn:E;
      cbn [door_type dimensions fire_rating description location remarks].
    + split; [exact Hv|]. split; [right; exact (search_dim_has_dim _ _ E)|].
      split; [intros ->; apply search_dim_shape in E;
              destruct E as (w & h & E & _); destruct w; discriminate|].
      repeat split; apply strip_label_stripped.
    + split; [exact Hv|]. split; [now left|].
      split; [intros _; unfold has_dim; now rewrite E|].
      repeat split; apply strip_label_stripped.
  - cbn [door_type dimensions fire_rating description location remarks].
    split; [exact Hv|]. split; [exact Hd|]. split; [discriminate|].
    repeat split; apply strip_label_stripped.
Qed.

Lemma main_doors_invariant_witness :
  let pages := [Returns [Grid (Samples.one_door_table Samples.md_plain)]] in
  let door := mkDoor (txt "MD/1") (txt "1250(W)x2240(H)") (txt "1 HR")
                     [] [] [] in
  In door (main_doors pages) /\ is_valid_door_entry door = true.
Proof.
  intros pages door.
  assert (H : In door (main_doors pages)) by (left; reflexivity).
  split; [exact H | exact (proj1 (main_doors_invariant pages door H))].
Defined.
